(* Verification of the sc-metrics-agent metric pipeline: identity probing,
   the write client's retry loop, the aggregator, the decorator, the auth
   token cache and collector registry construction.

   Go strings are modelled as Rocq strings (byte strings); Go's string
   ordering is bytewise, which is String.compare.  Go ints and durations are
   Z with the int64 wrap-around written out where the code can overflow.
   Floating-point payloads are kept abstract (Section variables). *)

From Stdlib Require Import ZArith Lia Bool List Ascii String Sorting.Permutation
  Sorting.Sorted.
From stdpp Require Import base gmap strings list.

Import ListNotations.
Open Scope string_scope.

(* ===================================================================== *)
(** * Go string helpers                                                   *)
(* ===================================================================== *)

Module GoStrings.

Local Open Scope Z_scope.

(** A byte of a Go string, as a number. *)
Definition byte_of (c : Ascii.ascii) : Z := Z.of_nat (Ascii.nat_of_ascii c).

(** byte(z) *)
Definition byte (z : Z) : Ascii.ascii := Ascii.ascii_of_nat (Z.to_nat (z mod 256)).

Definition RuneSelf : Z := 0x80.
Definition RuneError : Z := 0xFFFD.

(** utf8's first-byte table: the sequence length and the accepted range
    of the second byte, for a non-ASCII first byte that can start one. *)
Definition accept_range (p0 : Z) : option (nat * Z * Z) :=
  if (0xC2 <=? p0) && (p0 <=? 0xDF) then Some (2%nat, 0x80, 0xBF)
  else if p0 =? 0xE0 then Some (3%nat, 0xA0, 0xBF)
  else if (0xE1 <=? p0) && (p0 <=? 0xEC) then Some (3%nat, 0x80, 0xBF)
  else if p0 =? 0xED then Some (3%nat, 0x80, 0x9F)
  else if (0xEE <=? p0) && (p0 <=? 0xEF) then Some (3%nat, 0x80, 0xBF)
  else if p0 =? 0xF0 then Some (4%nat, 0x90, 0xBF)
  else if (0xF1 <=? p0) && (p0 <=? 0xF3) then Some (4%nat, 0x80, 0xBF)
  else if p0 =? 0xF4 then Some (4%nat, 0x80, 0x8F)
  else None.

Definition in_range (b lo hi : Z) : bool := (lo <=? b) && (b <=? hi).

(** utf8.DecodeRune: the first rune and its width; an invalid or short
    sequence gives (RuneError, 1), an empty one (RuneError, 0). *)
Definition decode_rune (p : list Ascii.ascii) : Z * nat :=
  match p with
  | [] => (RuneError, 0%nat)
  | c0 :: rest =>
      let p0 := byte_of c0 in
      if p0 <? RuneSelf then (p0, 1%nat) else
      match accept_range p0 with
      | None => (RuneError, 1%nat)
      | Some (sz, lo, hi) =>
          if Nat.ltb (List.length p) sz then (RuneError, 1%nat) else
          match rest with
          | [] => (RuneError, 1%nat)
          | c1 :: rest1 =>
              let b1 := byte_of c1 in
              if negb (in_range b1 lo hi) then (RuneError, 1%nat)
              else if Nat.leb sz 2 then
                (Z.lor (Z.shiftl (Z.land p0 0x1F) 6) (Z.land b1 0x3F), 2%nat)
              else match rest1 with
              | [] => (RuneError, 1%nat)
              | c2 :: rest2 =>
                  let b2 := byte_of c2 in
                  if negb (in_range b2 0x80 0xBF) then (RuneError, 1%nat)
                  else if Nat.leb sz 3 then
                    (Z.lor (Z.lor (Z.shiftl (Z.land p0 0x0F) 12)
                                  (Z.shiftl (Z.land b1 0x3F) 6)) (Z.land b2 0x3F), 3%nat)
                  else match rest2 with
                  | [] => (RuneError, 1%nat)
                  | c3 :: _ =>
                      let b3 := byte_of c3 in
                      if negb (in_range b3 0x80 0xBF) then (RuneError, 1%nat)
                      else (Z.lor (Z.lor (Z.lor (Z.shiftl (Z.land p0 0x07) 18)
                                                (Z.shiftl (Z.land b1 0x3F) 12))
                                         (Z.shiftl (Z.land b2 0x3F) 6))
                                  (Z.land b3 0x3F), 4%nat)
                  end
              end
          end
      end
  end.

(** utf8.RuneStart *)
Definition RuneStart (b : Z) : bool := negb (Z.land b 0xC0 =? 0x80).

Definition byte_at (p : list Ascii.ascii) (i : Z) : Z :=
  byte_of (nth (Z.to_nat i) p "000"%char).

(** [for start--; start >= lim; start-- { if RuneStart(p[start]) { break } }] *)
Fixpoint back_scan (p : list Ascii.ascii) (fuel : nat) (start lim : Z) : Z :=
  match fuel with
  | O => start
  | S f =>
      if start <? lim then start
      else if RuneStart (byte_at p start) then start
      else back_scan p f (start - 1) lim
  end.

(** utf8.DecodeLastRune (UTFMax = 4). *)
Definition decode_last_rune (p : list Ascii.ascii) : Z * nat :=
  let end_ := Z.of_nat (List.length p) in
  if end_ =? 0 then (RuneError, 0%nat) else
  let start := end_ - 1 in
  let r := byte_at p start in
  if r <? RuneSelf then (r, 1%nat) else
  let lim := Z.max (end_ - 4) 0 in
  let start := back_scan p 4 (start - 1) lim in
  let start := if start <? 0 then 0 else start in
  let '(r, size) := decode_rune (skipn (Z.to_nat start) p) in
  if negb (start + Z.of_nat size =? end_) then (RuneError, 1%nat) else (r, size).

(** unicode.IsSpace: the Latin-1 spaces, then the White_Space table. *)
Definition IsSpace (r : Z) : bool :=
  if (0 <=? r) && (r <=? 0xFF) then
    (r =? 0x09) || (r =? 0x0A) || (r =? 0x0B) || (r =? 0x0C) || (r =? 0x0D)
    || (r =? 0x20) || (r =? 0x85) || (r =? 0xA0)
  else
    (r =? 0x1680) || in_range r 0x2000 0x200A || (r =? 0x2028) || (r =? 0x2029)
    || (r =? 0x202F) || (r =? 0x205F) || (r =? 0x3000).

(** strings.TrimLeftFunc(s, unicode.IsSpace): drop the leading runes
    while they are spaces ([for i, r := range s]). *)
Fixpoint trim_left_space (fuel : nat) (p : list Ascii.ascii) : list Ascii.ascii :=
  match fuel with
  | O => p
  | S f =>
      match p with
      | [] => []
      | _ => let '(r, w) := decode_rune p in
             if IsSpace r then trim_left_space f (skipn w p) else p
      end
  end.

(** lastIndexFunc(s, unicode.IsSpace, false) *)
Fixpoint last_index_nonspace (fuel : nat) (p : list Ascii.ascii) (i : nat) : Z :=
  match fuel with
  | O => -1
  | S f =>
      if Nat.eqb i 0 then -1 else
      let '(r, size) := decode_last_rune (firstn i p) in
      let i' := (i - size)%nat in
      if negb (IsSpace r) then Z.of_nat i' else last_index_nonspace f p i'
  end.

(** strings.TrimRightFunc(s, unicode.IsSpace) *)
Definition trim_right_space (p : list Ascii.ascii) : list Ascii.ascii :=
  let i := last_index_nonspace (List.length p) p (List.length p) in
  let i := if (0 <=? i) && (RuneSelf <=? byte_at p i)
           then i + Z.of_nat (snd (decode_rune (skipn (Z.to_nat i) p)))
           else i + 1 in
  firstn (Z.to_nat i) p.

(** asciiSpace *)
Definition asciiSpace (c : Z) : bool :=
  (c =? 0x09) || (c =? 0x0A) || (c =? 0x0B) || (c =? 0x0C) || (c =? 0x0D) || (c =? 0x20).

(** Where the ASCII fast path of TrimSpace stops: at an ASCII non-space
    byte ([Fast], the rest), or at a non-ASCII byte ([Slow], the rest,
    handed to the Unicode-aware functions). *)
Inductive trim_scan := Fast (l : list Ascii.ascii) | Slow (l : list Ascii.ascii).

(** The loop over [start]. *)
Fixpoint trim_space_start (p : list Ascii.ascii) : trim_scan :=
  match p with
  | [] => Fast []
  | c :: r =>
      if RuneSelf <=? byte_of c then Slow p
      else if asciiSpace (byte_of c) then trim_space_start r
      else Fast p
  end.

(** The loop over [stop], on the bytes of [s[start:stop]] in reverse. *)
Fixpoint trim_space_stop (rp : list Ascii.ascii) : trim_scan :=
  match rp with
  | [] => Fast []
  | c :: r =>
      if RuneSelf <=? byte_of c then Slow (rev rp)
      else if asciiSpace (byte_of c) then trim_space_stop r
      else Fast (rev rp)
  end.

(** strings.TrimSpace *)
Definition TrimSpace (s : string) : string :=
  let p := String.list_ascii_of_string s in
  String.string_of_list_ascii
    match trim_space_start p with
    | Slow l => trim_right_space (trim_left_space (List.length l) l)
    | Fast l =>
        match trim_space_stop (rev l) with
        | Slow m => trim_right_space m
        | Fast m => m
        end
    end.


(** utf8.EncodeRune / utf8.AppendRune (what strings.Builder.WriteRune
    writes): negative, surrogate and out-of-range runes become RuneError. *)
Definition encode_rune (r : Z) : list Ascii.ascii :=
  let i := r mod 2 ^ 32 in
  if i <=? 0x7F then [byte r]
  else if i <=? 0x7FF then
    [byte (Z.lor 0xC0 (Z.shiftr r 6)); byte (Z.lor 0x80 (Z.land r 0x3F))]
  else
    let r := if (0x10FFFF <? i) || in_range i 0xD800 0xDFFF then RuneError else r in
    let i := if (0x10FFFF <? i) || in_range i 0xD800 0xDFFF then RuneError else i in
    if i <=? 0xFFFF then
      [byte (Z.lor 0xE0 (Z.shiftr r 12)); byte (Z.lor 0x80 (Z.land (Z.shiftr r 6) 0x3F));
       byte (Z.lor 0x80 (Z.land r 0x3F))]
    else
      [byte (Z.lor 0xF0 (Z.shiftr r 18)); byte (Z.lor 0x80 (Z.land (Z.shiftr r 12) 0x3F));
       byte (Z.lor 0x80 (Z.land (Z.shiftr r 6) 0x3F)); byte (Z.lor 0x80 (Z.land r 0x3F))].

(** The runes [for _, r := range s] visits: an invalid byte is RuneError. *)
Fixpoint runes (fuel : nat) (p : list Ascii.ascii) : list Z :=
  match fuel with
  | O => []
  | S f =>
      match p with
      | [] => []
      | _ => let '(r, w) := decode_rune p in r :: runes f (skipn w p)
      end
  end.

(** strings.Map: every rune replaced by the encoding of its image,
    dropped when the image is negative.  Go copies unchanged runes
    byte for byte and writes RuneError for an invalid byte, which is the
    encoding of the decoded rune in both cases. *)
Definition Map (mapping : Z -> Z) (p : list Ascii.ascii) : list Ascii.ascii :=
  List.concat (List.map (fun r => let r' := mapping r in
                                  if r' <? 0 then [] else encode_rune r')
                        (runes (List.length p) p)).

Local Close Scope Z_scope.

(** strings.HasPrefix *)
Definition HasPrefix (s pre : string) : bool := String.prefix pre s.

(** Go's [a < b] on strings. *)
Definition str_lt (a b : string) : bool :=
  match String.compare a b with Lt => true | _ => false end.

(** strings.Join *)
Fixpoint Join (parts : list string) (sep : string) : string :=
  match parts with
  | [] => ""
  | [p] => p
  | p :: ps => p ++ sep ++ Join ps sep
  end.

End GoStrings.

Import GoStrings.

(* ===================================================================== *)
(** * pkg/config: getVMIDFromDMIDecode                                    *)
(* ===================================================================== *)

Module Identity.

(** Outcome of one [exec.CommandContext(ctx, path, "-s", "system-uuid")]
    run, as seen by the loop: the shared 5-second context expired
    ([ctx.Err() == context.DeadlineExceeded]), [cmd.Output()] returned an
    error, or it returned the given output. *)
Inductive probe_outcome :=
| ProbeTimedOut
| ProbeFailed
| ProbeOutput (out : string).

(** What the host offers: the dmidecode runs (by command path), and the
    identity sources the spec lists as fallbacks. *)
Record host := mkHost {
  run_dmidecode : string -> probe_outcome;
  machine_id_file : option string;   (* /etc/machine-id *)
  boot_id_file : option string;      (* /proc/sys/kernel/random/boot_id *)
  hostname : option string
}.

Definition dmidecodePaths : list string :=
  ["/usr/sbin/dmidecode"; "/sbin/dmidecode"; "dmidecode"].

(** The validity test applied to the trimmed output. *)
Definition valid_vm_id (vmID : string) : bool :=
  negb (String.eqb vmID "") && negb (String.eqb vmID "Not Settable")
  && negb (String.eqb vmID "Not Specified")
  && negb (HasPrefix vmID "00000000-0000-0000").

Fixpoint probe_paths (run : string -> probe_outcome) (paths : list string)
  : string :=
  match paths with
  | [] => ""
  | p :: ps =>
      match run p with
      | ProbeTimedOut => ""
      | ProbeFailed => probe_paths run ps
      | ProbeOutput out =>
          let vmID := TrimSpace out in
          if valid_vm_id vmID then vmID else probe_paths run ps
      end
  end.

(** getVMIDFromDMIDecode: the only identity source of DefaultConfig. *)
Definition getVMIDFromDMIDecode (h : host) : string :=
  probe_paths (run_dmidecode h) dmidecodePaths.

(** The resolution order written in the spec (section 4.1), to be compared
    with the code: firmware UUID, then the machine-id file, then the boot-id
    file, then the host name, each accepted when its trimmed value is
    non-empty. *)
Definition accept_file (f : option string) : option string :=
  match f with
  | Some s => if String.eqb (TrimSpace s) "" then None else Some (TrimSpace s)
  | None => None
  end.

Definition vm_id_resolution_spec (h : host) : string :=
  let d := probe_paths (run_dmidecode h) dmidecodePaths in
  if negb (String.eqb d "") then d else
  match accept_file (machine_id_file h) with
  | Some v => v
  | None =>
      match accept_file (boot_id_file h) with
      | Some v => v
      | None => match hostname h with Some n => n | None => "" end
      end
  end.

End Identity.

(* ===================================================================== *)
(** * pkg/config: Config and validate                                     *)
(* ===================================================================== *)

Module Config.

(** CollectorConfig: one switch per collector. *)
Record CollectorConfig := mkCollectorConfig {
  Processes : bool; CPU : bool; CPUFreq : bool; LoadAvg : bool;
  Memory : bool; VMStat : bool; Disk : bool; DiskStats : bool;
  Filesystem : bool; Network : bool; NetDev : bool; NetStat : bool;
  Sockstat : bool; Uname : bool; Time : bool; Uptime : bool;
  Entropy : bool; Interrupts : bool; Thermal : bool; Pressure : bool;
  Schedstat : bool
}.

(** The fields of Config that validate reads (durations in nanoseconds). *)
Record Config := mkConfig {
  CollectionInterval : Z;
  HTTPTimeout : Z;
  VMID : string;
  Collectors : CollectorConfig;
  LogLevel : string;
  MaxRetries : Z;
  RetryInterval : Z
}.

Definition hasEnabledCollectors (c : Config) : bool :=
  let k := Collectors c in
  Processes k || CPU k || CPUFreq k || LoadAvg k || Memory k || VMStat k
  || Disk k || DiskStats k || Filesystem k || Network k || NetDev k
  || NetStat k || Sockstat k || Uname k || Time k || Uptime k || Entropy k
  || Interrupts k || Thermal k || Pressure k || Schedstat k.

Definition vmid_error : string :=
  "vm_id cannot be determined: dmidecode failed to return a valid UUID. Please set vm_id manually in config.yaml or use SC_VM_ID environment variable".

(** The ASCII branch of strings.ToLower. *)
Definition lower_ascii (c : Ascii.ascii) : Ascii.ascii :=
  let n := Ascii.nat_of_ascii c in
  if Nat.leb 65 n && Nat.leb n 90 then Ascii.ascii_of_nat (n + 32) else c.

Definition validLogLevels : list string :=
  ["debug"; "info"; "warn"; "error"; "fatal"; "panic"].

Section Validate.

(** unicode.ToLower on one rune; its case tables are not modelled, so
    everything below holds for any function in its place. *)
Variable unicode_ToLower : Z -> Z.

(** strings.ToLower: an all-ASCII string has its upper-case letters
    lowered (returned as it is when it has none, which is the same string);
    any other string goes through strings.Map(unicode.ToLower, s). *)
Definition ToLower (s : string) : string :=
  let p := String.list_ascii_of_string s in
  if forallb (fun c => Z.ltb (byte_of c) RuneSelf) p
  then String.string_of_list_ascii (map lower_ascii p)
  else String.string_of_list_ascii (Map unicode_ToLower p).

(** validate: [None] is a nil error, [Some msg] the returned error. *)
Definition validate (c : Config) : option string :=
  if (CollectionInterval c <=? 0)%Z then Some "collection_interval must be positive"
  else if (HTTPTimeout c <=? 0)%Z then Some "http_timeout must be positive"
  else if String.eqb (VMID c) "" then Some vmid_error
  else if (MaxRetries c <? 0)%Z then Some "max_retries cannot be negative"
  else if (RetryInterval c <=? 0)%Z then Some "retry_interval must be positive"
  else if negb (existsb (String.eqb (ToLower (LogLevel c))) validLogLevels)
  then Some ("invalid log_level: " ++ LogLevel c)
  else if negb (hasEnabledCollectors c)
  then Some "at least one collector must be enabled"
  else None.

End Validate.

End Config.

(* ===================================================================== *)
(** * pkg/clients/tsclient: the write client                              *)
(* ===================================================================== *)

Module TsClient.

Open Scope Z_scope.

Definition Second : Z := 1000000000.
Definition DefaultTimeout : Z := 30 * Second.
Definition DefaultMaxRetries : Z := 3.
Definition DefaultRetryDelay : Z := 5 * Second.

(** int64 arithmetic: Go's multiplication of durations wraps. *)
Definition wrap64 (z : Z) : Z := Z.modulo (z + 2 ^ 63) (2 ^ 64) - 2 ^ 63.
(** time.Time.Sub saturates at the Duration bounds. *)
Definition sat64 (z : Z) : Z := Z.max (- 2 ^ 63) (Z.min (2 ^ 63 - 1) z).

(** strconv.Atoi on a 64-bit platform: optional sign, then one or more
    decimal digits, the value in the int64 range. *)
Fixpoint digits_value (acc : Z) (l : list Ascii.ascii) : option Z :=
  match l with
  | [] => Some acc
  | c :: r =>
      let n := Z.of_nat (Ascii.nat_of_ascii c) in
      if (48 <=? n) && (n <=? 57) then digits_value (acc * 10 + (n - 48)) r
      else None
  end.

Definition Atoi (s : string) : option Z :=
  let l := String.list_ascii_of_string s in
  let '(sign, ds) :=
    match l with
    | "+"%char :: r => (1, r)
    | "-"%char :: r => (-1, r)
    | _ => (1, l)
    end in
  match ds with
  | [] => None
  | _ =>
      match digits_value 0 ds with
      | Some v =>
          let z := sign * v in
          if (- 2 ^ 63 <=? z) && (z <=? 2 ^ 63 - 1) then Some z else None
      | None => None
      end
  end.

(** parseRetryAfter.  [parse_time] is http.ParseTime (instants in Unix
    nanoseconds) and [now] the clock reading taken by time.Until. *)
Definition parseRetryAfter (parse_time : string -> option Z) (now : Z)
  (value : string) : Z :=
  if String.eqb value "" then 0 else
  match Atoi value with
  | Some seconds => if 0 <? seconds then wrap64 (seconds * Second)
                    else match parse_time value with
                         | Some t => let d := sat64 (t - now) in
                                     if 0 <? d then d else 0
                         | None => 0
                         end
  | None =>
      match parse_time value with
      | Some t => let d := sat64 (t - now) in if 0 <? d then d else 0
      | None => 0
      end
  end.

Definition shouldRetry (statusCode : Z) : bool :=
  existsb (Z.eqb statusCode) [429; 500; 502; 503; 504].

Record ClientConfig := mkClientConfig {
  cfg_Timeout : Z;
  cfg_MaxRetries : Z;
  cfg_RetryDelay : Z
}.

Record Client := mkClient {
  timeout : Z;
  maxRetries : Z;
  retryDelay : Z
}.

Definition NewClient (config : ClientConfig) : Client :=
  let timeout := if cfg_Timeout config =? 0 then DefaultTimeout
                 else cfg_Timeout config in
  let maxRetries := if cfg_MaxRetries config <=? 0 then DefaultMaxRetries
                    else cfg_MaxRetries config in
  let retryDelay := if cfg_RetryDelay config =? 0 then DefaultRetryDelay
                    else cfg_RetryDelay config in
  mkClient timeout maxRetries retryDelay.

Definition SetMaxRetries (c : Client) (n : Z) : Client :=
  if 0 <=? n then mkClient (timeout c) n (retryDelay c) else c.

(** The Response built by sendRequest. *)
Record Response := mkResponse {
  StatusCode : Z;
  RetryAfter : Z
}.

(** What one sendRequest call meets: an error (request creation, transport
    or body read), or a reply with its status, its Retry-After header value
    ("" when absent) and the clock reading at parse time. *)
Inductive wire :=
| WireErr
| WireReply (status : Z) (retry_after_header : string) (now : Z).

(** The environment of one send: the reply of each attempt, whether the
    context is done when attempt [k] is about to be made (the select before
    the wait or during it), and http.ParseTime. *)
Record env := mkEnv {
  wire_at : nat -> wire;
  ctx_done_before : nat -> bool;
  http_parse_time : string -> option Z
}.

Inductive send_result :=
| SendOk (r : Response)                 (* return response, nil *)
| SendCtxErr                            (* return nil, ctx.Err() *)
| SendExhausted (last : option Response). (* all retries exhausted *)

(** One entry per HTTP attempt made: its index and the wait before it. *)
Definition trace := list (nat * Z).

Definition wait_before (retryDelay : Z) (attempt : nat)
  (lastResponse : option Response) : Z :=
  if Nat.eqb attempt 0 then 0 else
  match lastResponse with
  | Some r => if 0 <? RetryAfter r then RetryAfter r else retryDelay
  | None => retryDelay
  end.

(** The body of [for attempt := 0; attempt <= c.maxRetries; attempt++],
    with [fuel] the number of iterations left. *)
Fixpoint retry_loop (e : env) (retryDelay : Z) (fuel attempt : nat)
  (lastResponse : option Response) : send_result * trace :=
  match fuel with
  | O => (SendExhausted lastResponse, [])
  | S fuel' =>
      if ctx_done_before e attempt then (SendCtxErr, []) else
      let w := wait_before retryDelay attempt lastResponse in
      match wire_at e attempt with
      | WireErr =>
          let '(res, tr) := retry_loop e retryDelay fuel' (S attempt) lastResponse in
          (res, (attempt, w) :: tr)
      | WireReply st hdr now =>
          let response := mkResponse st (parseRetryAfter (http_parse_time e) now hdr) in
          if shouldRetry st then
            let '(res, tr) := retry_loop e retryDelay fuel' (S attempt) (Some response) in
            (res, (attempt, w) :: tr)
          else (SendOk response, [(attempt, w)])
      end
  end.

Definition sendWithRetry (c : Client) (e : env) : send_result * trace :=
  retry_loop e (retryDelay c) (Z.to_nat (maxRetries c + 1)) 0 None.

(** The failures the spec calls retryable: a connection error, or a reply
    whose status shouldRetry accepts. *)
Definition retryable (w : wire) : bool :=
  match w with
  | WireErr => true
  | WireReply st _ _ => shouldRetry st
  end.

End TsClient.

(* ===================================================================== *)
(** * prometheus client_model (dto) values, shared by the stages          *)
(* ===================================================================== *)

Inductive result (A : Type) :=
| Ok (a : A)
| Err (msg : string).
Arguments Ok {A} a.
Arguments Err {A} msg.

Module Dto.

Section Dto.

(** float64 is kept abstract. *)
Variable float : Type.

Record Bucket := mkBucket {
  CumulativeCount : Z;        (* uint64 *)
  UpperBound : float
}.

Record Histogram := mkHistogram {
  H_SampleCount : Z;
  H_SampleSum : float;
  H_Bucket : list Bucket
}.

Record Quantile := mkQuantile {
  Q_Quantile : float;
  Q_Value : float
}.

Record Summary := mkSummary {
  S_SampleCount : Z;
  S_SampleSum : float;
  S_Quantile : list Quantile
}.

(** dto.Metric; [None] fields are nil pointers. *)
Record Metric := mkMetric {
  Label : list (string * string);
  Gauge : option float;
  Counter : option float;
  Summary_ : option Summary;
  Untyped : option float;
  Histogram_ : option Histogram;
  TimestampMs : option Z
}.

(** dto.MetricFamily: [Type_] is GetType().String(); a nil *dto.Metric in
    the slice is [None]. *)
Record MetricFamily := mkMetricFamily {
  Name : string;
  Help : string;
  Type_ : string;
  Metric_ : list (option Metric)
}.

End Dto.

Arguments mkBucket {float}. Arguments mkHistogram {float}.
Arguments mkQuantile {float}. Arguments mkSummary {float}.
Arguments mkMetric {float}. Arguments mkMetricFamily {float}.
Arguments CumulativeCount {float}. Arguments UpperBound {float}.
Arguments H_SampleCount {float}. Arguments H_SampleSum {float}.
Arguments H_Bucket {float}. Arguments Q_Quantile {float}.
Arguments Q_Value {float}. Arguments S_SampleCount {float}.
Arguments S_SampleSum {float}. Arguments S_Quantile {float}.
Arguments Label {float}. Arguments Gauge {float}. Arguments Counter {float}.
Arguments Summary_ {float}. Arguments Untyped {float}.
Arguments Histogram_ {float}. Arguments TimestampMs {float}.
Arguments Name {float}. Arguments Help {float}. Arguments Type_ {float}.
Arguments Metric_ {float}.

End Dto.

Import Dto.

(* ===================================================================== *)
(** * pkg/aggregate                                                       *)
(* ===================================================================== *)

Module Aggregate.

Section Aggregate.

Variable float : Type.
(** float64(x) of a uint64 count, and fmt.Sprintf("%g", x). *)
Variable float_of_u64 : Z -> float.
Variable fmt_g : float -> string.

Record MetricWithValue := mkMWV {
  MName : string;
  MLabels : gmap string string;
  MValue : float;
  MTimestamp : Z;
  MType : string
}.

(** [labels[labelPair.GetName()] = labelPair.GetValue()] over metric.Label *)
Definition labels_of (ls : list (string * string)) : gmap string string :=
  fold_left (fun m '(k, v) => <[k := v]> m) ls ∅.

Definition histogram_records (familyName : string) (labels : gmap string string)
  (h : Histogram float) (ts : Z) : list MetricWithValue :=
  (map (fun b => mkMWV (familyName ++ "_bucket")
                      (<["le" := fmt_g (UpperBound b)]> labels)
                      (float_of_u64 (CumulativeCount b)) ts "counter")
      (H_Bucket h)
  ++ [mkMWV (familyName ++ "_count") labels
            (float_of_u64 (H_SampleCount h)) ts "counter";
      mkMWV (familyName ++ "_sum") labels (H_SampleSum h) ts "counter"])%list.

Definition summary_records (familyName : string) (labels : gmap string string)
  (s : Summary float) (ts : Z) : list MetricWithValue :=
  (map (fun q => mkMWV familyName
                      (<["quantile" := fmt_g (Q_Quantile q)]> labels)
                      (Q_Value q) ts "gauge")
      (S_Quantile s)
  ++ [mkMWV (familyName ++ "_count") labels
            (float_of_u64 (S_SampleCount s)) ts "counter";
      mkMWV (familyName ++ "_sum") labels (S_SampleSum s) ts "counter"])%list.

Definition processMetric (familyName familyType : string)
  (metric : option (Metric float)) (timestamp : Z)
  : result (list MetricWithValue) :=
  match metric with
  | None => Err "metric is nil"
  | Some m =>
      let labels := labels_of (Label m) in
      let metricTimestamp :=
        match TimestampMs m with Some t => t | None => timestamp end in
      if String.eqb familyType "COUNTER" then
        Ok (match Counter m with
            | Some v => [mkMWV familyName labels v metricTimestamp "counter"]
            | None => [] end)
      else if String.eqb familyType "GAUGE" then
        Ok (match Gauge m with
            | Some v => [mkMWV familyName labels v metricTimestamp "gauge"]
            | None => [] end)
      else if String.eqb familyType "HISTOGRAM" then
        Ok (match Histogram_ m with
            | Some h => histogram_records familyName labels h metricTimestamp
            | None => [] end)
      else if String.eqb familyType "SUMMARY" then
        Ok (match Summary_ m with
            | Some s => summary_records familyName labels s metricTimestamp
            | None => [] end)
      else if String.eqb familyType "UNTYPED" then
        Ok (match Untyped m with
            | Some v => [mkMWV familyName labels v metricTimestamp "untyped"]
            | None => [] end)
      else Err ("unsupported metric type: " ++ familyType)
  end.

Fixpoint process_metrics (familyName familyType : string)
  (ms : list (option (Metric float))) (timestamp : Z)
  : result (list MetricWithValue) :=
  match ms with
  | [] => Ok []
  | m :: rest =>
      match processMetric familyName familyType m timestamp with
      | Err e => Err ("failed to process metric in family " ++ familyName ++ ": " ++ e)
      | Ok vs =>
          match process_metrics familyName familyType rest timestamp with
          | Err e => Err e
          | Ok vs' => Ok (app vs vs')
          end
      end
  end.

Definition processFamily (family : option (MetricFamily float)) (timestamp : Z)
  : result (list MetricWithValue) :=
  match family with
  | None => Err "metric family is nil"
  | Some f => process_metrics (Name f) (Type_ f) (Metric_ f) timestamp
  end.

(** family.GetName(): "" on a nil family. *)
Definition GetName (family : option (MetricFamily float)) : string :=
  match family with Some f => Name f | None => "" end.

Fixpoint process_families (families : list (option (MetricFamily float)))
  (timestamp : Z) : result (list MetricWithValue) :=
  match families with
  | [] => Ok []
  | f :: rest =>
      match processFamily f timestamp with
      | Err e => Err ("failed to process family " ++ GetName f ++ ": " ++ e)
      | Ok vs =>
          match process_families rest timestamp with
          | Err e => Err e
          | Ok vs' => Ok (app vs vs')
          end
      end
  end.

(** Aggregate; [tick] is the single [time.Now().UnixMilli()] of the call. *)
Definition Aggregate (tick : Z) (families : list (option (MetricFamily float)))
  : result (list MetricWithValue) :=
  match families with
  | [] => Ok []
  | _ => process_families families tick
  end.

(** Insertion of [x] by a [less] function; [sort_by less] is the sorted
    slice sort.Slice/sort.Strings produce (sort.Slice runs insertion sort
    on short slices, and any comparison sort yields a sorted permutation). *)
Fixpoint insert_by {A} (less : A -> A -> bool) (x : A) (l : list A) : list A :=
  match l with
  | [] => [x]
  | y :: r => if less x y then x :: y :: r else y :: insert_by less x r
  end.

Fixpoint sort_by {A} (less : A -> A -> bool) (l : list A) : list A :=
  match l with
  | [] => []
  | x :: r => insert_by less x (sort_by less r)
  end.

(** labelFingerprint *)
Definition labelFingerprint (labels : gmap string string) : string :=
  if Nat.eqb (size labels) 0 then "" else
  let keys := sort_by str_lt (map fst (map_to_list labels)) in
  let parts := map (fun k => k ++ "=" ++ default "" (labels !! k)) keys in
  Join parts ",".

Definition metric_less (a b : MetricWithValue) : bool :=
  if negb (String.eqb (MName a) (MName b)) then str_lt (MName a) (MName b)
  else str_lt (labelFingerprint (MLabels a)) (labelFingerprint (MLabels b)).

(** SortMetrics (in place in Go; here the sorted slice). *)
Definition SortMetrics (metrics : list MetricWithValue) : list MetricWithValue :=
  sort_by metric_less metrics.

(** The order the spec states: ascending by (name, label fingerprint),
    strings compared bytewise. *)
Definition record_key_le (a b : MetricWithValue) : Prop :=
  String.compare (MName a) (MName b) = Lt \/
  (MName a = MName b /\
   String.compare (labelFingerprint (MLabels a)) (labelFingerprint (MLabels b)) <> Gt).

End Aggregate.

End Aggregate.

(* ===================================================================== *)
(** * pkg/decorator: Decorate over a heap of dto objects                 *)
(* ===================================================================== *)

Module Decorator.

Section Decorator.

(** The payload pointers a dto.Metric carries (Gauge, Counter, Summary,
    Untyped, Histogram); the decorator copies them as they are. *)
Variable payload : Type.

Definition loc := nat.

(** Heap objects: *dto.LabelPair, *dto.Metric and *dto.MetricFamily; a
    slice of pointers holds [None] for a nil pointer. *)
Inductive obj :=
| OLabel (name value : string)
| OMetric (labels : list (option loc)) (p : payload) (timestampMs : option Z)
| OFamily (name help type_ : string) (metrics : list (option loc)).

Record heap := mkHeap {
  cells : gmap loc obj;
  next : loc
}.

(** How a Go call ends: it returns (a value or an error), or it panics. *)
Inductive outcome (A : Type) :=
| Normal (r : result A)
| Panic (msg : string).

(** Go's (value, error) results over the heap, with panics. *)
Definition M (A : Type) := heap -> outcome (A * heap).

Definition ret {A} (a : A) : M A := fun h => Normal _ (Ok (a, h)).
Definition fail {A} (msg : string) : M A := fun _ => Normal _ (Err msg).
Definition bind {A B} (m : M A) (k : A -> M B) : M B :=
  fun h => match m h with
           | Normal _ (Ok (a, h')) => k a h'
           | Normal _ (Err e) => Normal _ (Err e)
           | Panic _ msg => Panic _ msg
           end.

Notation "x <- m ;; k" := (bind m (fun x => k))
  (at level 100, m at next level, right associativity).

Definition nil_deref : string :=
  "runtime error: invalid memory address or nil pointer dereference".

Definition read (l : loc) : M obj :=
  fun h => match cells h !! l with
           | Some o => Normal _ (Ok (o, h))
           | None => Panic _ nil_deref
           end.

(** [*p] (or a field access [p.f]) on a pointer that may be nil. *)
Definition deref (p : option loc) : M obj :=
  match p with
  | Some l => read l
  | None => fun _ => Panic _ nil_deref
  end.

(** [&T{...}]: a fresh cell. *)
Definition alloc (o : obj) : M loc :=
  fun h => Normal _ (Ok (next h, mkHeap (<[next h := o]> (cells h)) (S (next h)))).

(** fmt.Errorf("...%w", err) around a step that returned an error. *)
Definition wrap_err {A} (f : string -> string) (m : M A) : M A :=
  fun h => match m h with
           | Normal _ (Err e) => Normal _ (Err (f e))
           | r => r
           end.

(** family.GetName(): "" on a nil family. *)
Definition GetName (h : heap) (family : option loc) : string :=
  match family with
  | Some fl => match cells h !! fl with
               | Some (OFamily n _ _ _) => n
               | _ => ""
               end
  | None => ""
  end.

Fixpoint mapM {A B} (f : A -> M B) (l : list A) : M (list B) :=
  match l with
  | [] => ret []
  | x :: r => y <- f x ;; ys <- mapM f r ;; ret (y :: ys)
  end.

Section WithLabels.

Variable vmID : string.
(** md.labels. *)
Variable labels : gmap string string.
(** The order in which a [range] over a map visits its entries; Go
    leaves it unspecified and may choose it afresh at every [range], so it
    is an oracle that may depend on the whole state. *)
Variable iter : gmap string string -> heap -> list (string * string).

(** [for key, value := range md.labels]. *)
Definition range_labels : M (list (string * string)) :=
  fun h => Normal _ (Ok (iter labels h, h)).

(** [&dto.LabelPair{Name: label.Name, Value: label.Value}]. *)
Definition copy_label (label : option loc) : M loc :=
  o <- deref label ;;
  match o with
  | OLabel n v => alloc (OLabel n v)
  | _ => fail "not a label pair"
  end.

Definition decorateMetric (metric : option loc) : M loc :=
  match metric with
  | None => fail "metric is nil"
  | Some ml =>
      o <- read ml ;;
      match o with
      | OMetric ls p ts =>
          copied <- mapM copy_label ls ;;
          vmIDLabel <- alloc (OLabel "vm_id" vmID) ;;
          kvs <- range_labels ;;
          custom <- mapM (fun '(k, v) => alloc (OLabel k v)) kvs ;;
          alloc (OMetric (map Some (copied ++ [vmIDLabel] ++ custom)) p ts)
      | _ => fail "not a metric"
      end
  end.

Definition decorateFamily (family : option loc) : M loc :=
  match family with
  | None => fail "metric family is nil"
  | Some fl =>
      o <- read fl ;;
      match o with
      | OFamily n hp t ms =>
          ms' <- wrap_err (fun e => "failed to decorate metric: " ++ e)
                   (mapM (fun m => decorateMetric m) ms) ;;
          alloc (OFamily n hp t (map Some ms'))
      | _ => fail "not a metric family"
      end
  end.

(** One iteration of Decorate's loop, with its error wrapping. *)
Definition decorate_one (family : option loc) : M loc :=
  fun h => wrap_err (fun e => "failed to decorate family " ++ GetName h family
                               ++ ": " ++ e)
                    (decorateFamily family) h.

(** Decorate: an empty input is returned as it is. *)
Definition Decorate (families : list (option loc)) : M (list (option loc)) :=
  match families with
  | [] => ret families
  | _ => fs <- mapM decorate_one families ;; ret (map Some fs)
  end.

End WithLabels.

(** Reading labels back: the (name, value) of each label pointer. *)
Definition read_label (h : heap) (l : loc) : option (string * string) :=
  match cells h !! l with
  | Some (OLabel n v) => Some (n, v)
  | _ => None
  end.

(** Heap well-formedness: every allocated cell is below [next]. *)
Definition wf (h : heap) : Prop := forall l, is_Some (cells h !! l) -> l < next h.

(** [h'] keeps every cell of [h] unchanged. *)
Definition preserves (h h' : heap) : Prop :=
  forall l o, cells h !! l = Some o -> cells h' !! l = Some o.

End Decorator.

Arguments OLabel {payload}. Arguments OMetric {payload}.
Arguments OFamily {payload}. Arguments mkHeap {payload}.
Arguments Normal {A}. Arguments Panic {A}.
Arguments deref {payload}. Arguments range_labels {payload}.
Arguments cells {payload}. Arguments next {payload}.
Arguments ret {payload A}. Arguments fail {payload A}.
Arguments bind {payload A B}. Arguments read {payload}.
Arguments alloc {payload}. Arguments mapM {payload A B}.
Arguments wrap_err {payload A}. Arguments GetName {payload}.
Arguments decorate_one {payload}.
Arguments copy_label {payload}. Arguments decorateMetric {payload}.
Arguments decorateFamily {payload}. Arguments Decorate {payload}.
Arguments read_label {payload}. Arguments wf {payload}.
Arguments preserves {payload}.

End Decorator.

(* ===================================================================== *)
(** * pkg/clients/metadata: token cache of GetAuthToken                   *)
(* ===================================================================== *)

Module Metadata.

Open Scope Z_scope.

Definition Minute : Z := 60 * 1000000000.
Definition TokenCacheLifetime : Z := 30 * Minute.
(** time.Time{} in Unix nanoseconds (January 1, year 1). *)
Definition zero_time : Z := -62135596800 * 1000000000.

Record TokenResponse := mkTokenResponse {
  Token : string;
  CloudAPIUrl : string
}.

(** The cache fields of the metadata Client (instants in nanoseconds). *)
Record Client := mkClient {
  cachedToken : string;
  cachedAPIURL : string;
  tokenExpiry : Z;
  tokenLifetime : Z
}.

Definition NewClient : Client := mkClient "" "" zero_time TokenCacheLifetime.

(** What the GET to the metadata endpoint meets: a transport error, or a
    reply with its status and the JSON decoding of its body ([None] when
    json.Unmarshal fails). *)
Inductive fetch_reply :=
| FetchTransportErr
| FetchReply (status : Z) (decoded : option TokenResponse).

Definition fetchAuthToken (r : fetch_reply) : result TokenResponse :=
  match r with
  | FetchTransportErr => Err "failed to fetch auth token"
  | FetchReply status decoded =>
      if negb (status =? 200) then Err "metadata service returned error status"
      else match decoded with
           | None => Err "failed to unmarshal token response"
           | Some tr => if String.eqb (Token tr) ""
                        then Err "received empty token from metadata service"
                        else Ok tr
           end
  end.

Definition cache_valid (c : Client) (now : Z) : bool :=
  negb (String.eqb (cachedToken c) "") && (now <? tokenExpiry c).

(** GetAuthToken run without interleaving: [now1] is the clock under the
    read lock, [now2] under the write lock, [now3] after the fetch.  The
    result carries the client after the call and whether a fetch was made. *)
Definition GetAuthToken (c : Client) (now1 now2 now3 : Z) (reply : fetch_reply)
  : result string * Client * bool :=
  if cache_valid c now1 then (Ok (cachedToken c), c, false)
  else if cache_valid c now2 then (Ok (cachedToken c), c, false)
  else match fetchAuthToken reply with
       | Err e => (Err e, c, true)
       | Ok tr =>
           (Ok (Token tr),
            mkClient (Token tr) (CloudAPIUrl tr) (now3 + tokenLifetime c)
                     (tokenLifetime c),
            true)
       end.

Definition InvalidateCache (c : Client) : Client :=
  mkClient "" "" zero_time (tokenLifetime c).

End Metadata.

(* ===================================================================== *)
(** * pkg/collector: NewSystemCollector                                   *)
(* ===================================================================== *)

Module Collector.

Import Config.

(** The add*Collector helpers register a collector and return nil. *)
Definition addCollector (name : string) : option string := None.

Definition enable_if (on : bool) (key : string) (enabled : list string)
  : list string :=
  if on then match addCollector key with
             | None => enabled ++ [key]
             | Some _ => enabled
             end
  else enabled.

(** NewSystemCollector: [procfs_ok] is whether procfs.NewDefaultFS()
    succeeded; on success the keys of the [enabled] map, in the order they
    were set. *)
Definition NewSystemCollector (cfg : CollectorConfig) (procfs_ok : bool)
  : result (list string) :=
  if negb procfs_ok then Err "failed to initialize procfs" else
  let enabled := ["go"; "process"] in
  let enabled := enable_if (CPU cfg) "cpu" enabled in
  let enabled := enable_if (Memory cfg) "memory" enabled in
  let enabled := enable_if (LoadAvg cfg) "loadavg" enabled in
  let enabled := enable_if (DiskStats cfg) "diskstats" enabled in
  let enabled := enable_if (NetDev cfg) "network" enabled in
  let enabled := enable_if (Filesystem cfg) "filesystem" enabled in
  if Nat.eqb (length enabled) 0 then Err "no collectors enabled"
  else Ok enabled.

End Collector.

(* ===================================================================== *)
(** * pkg/aggregate: batching, filtering and statistics                   *)
(* ===================================================================== *)

Module AggregateMore.

Import Aggregate.

Section AggregateMore.

Variable float : Type.

Abbreviation MWV := (MetricWithValue float).

(** The loop of BatchMetrics: [for i := 0; i < len(metrics); i += batchSize]
    ([fuel] bounds the iterations; [len(metrics)] of them suffice). *)
Fixpoint batch_loop (fuel : nat) (metrics : list MWV) (batchSize i : nat)
  : list (list MWV) :=
  match fuel with
  | O => []
  | S fuel' =>
      if Nat.ltb i (length metrics) then
        let end_ := Nat.min (i + batchSize) (length metrics) in
        firstn (end_ - i) (skipn i metrics)
          :: batch_loop fuel' metrics batchSize (i + batchSize)
      else []
  end.

(** The batch size BatchMetrics uses. *)
Definition effective_batch_size (batchSize : Z) : Z :=
  if (batchSize <=? 0)%Z then 1000%Z else batchSize.

(** BatchMetrics (a nil result is the empty list). *)
Definition BatchMetrics (metrics : list MWV) (batchSize : Z) : list (list MWV) :=
  match metrics with
  | [] => []
  | _ => batch_loop (length metrics) metrics
           (Z.to_nat (effective_batch_size batchSize)) 0
  end.

(** strings.Contains *)
Fixpoint Contains (s substr : string) : bool :=
  String.prefix substr s ||
  match s with
  | EmptyString => false
  | String _ s' => Contains s' substr
  end.

(** The inner loop over the patterns, with its [break]. *)
Fixpoint matches_any (name : string) (patterns : list string) : bool :=
  match patterns with
  | [] => false
  | p :: ps => if Contains name p then true else matches_any name ps
  end.

Fixpoint filter_loop (metrics : list MWV) (patterns : list string) : list MWV :=
  match metrics with
  | [] => []
  | m :: rest =>
      if matches_any (MName float m) patterns
      then m :: filter_loop rest patterns
      else filter_loop rest patterns
  end.

(** FilterMetricsByName *)
Definition FilterMetricsByName (metrics : list MWV) (patterns : list string)
  : list MWV :=
  match patterns with
  | [] => metrics
  | _ => filter_loop metrics patterns
  end.

(** MetricStats; TimeRange as (Start, End). *)
Record MetricStats := mkMetricStats {
  TotalMetrics : nat;
  MetricsByType : gmap string nat;
  UniqueMetricNames : nat;
  TimeRange : Z * Z
}.

(** One iteration of GetMetricStats' loop over (MetricsByType,
    uniqueNames, minTime, maxTime). *)
Definition stats_step (st : gmap string nat * gmap string bool * Z * Z) (m : MWV)
  : gmap string nat * gmap string bool * Z * Z :=
  let '(byType, uniqueNames, minTime, maxTime) := st in
  let byType := <[MType float m := default 0 (byType !! MType float m) + 1]> byType in
  let uniqueNames := <[MName float m := true]> uniqueNames in
  let minTime := if (MTimestamp float m <? minTime)%Z then MTimestamp float m else minTime in
  let maxTime := if (MTimestamp float m >? maxTime)%Z then MTimestamp float m else maxTime in
  (byType, uniqueNames, minTime, maxTime).

(** GetMetricStats *)
Definition GetMetricStats (metrics : list MWV) : MetricStats :=
  match metrics with
  | [] => mkMetricStats 0 ∅ 0 (0, 0)%Z
  | m0 :: _ =>
      let '(byType, uniqueNames, minTime, maxTime) :=
        fold_left stats_step metrics
          (∅, ∅, MTimestamp float m0, MTimestamp float m0) in
      mkMetricStats (length metrics) byType (size uniqueNames) (minTime, maxTime)
  end.

End AggregateMore.

End AggregateMore.

Module ConfigMore.

Import Identity Config.

(** strings.Split with a one-byte separator. *)
Fixpoint Split (s : string) (sep : Ascii.ascii) : list string :=
  match s with
  | EmptyString => [""]
  | String c s' =>
      if Ascii.eqb c sep then "" :: Split s' sep
      else match Split s' sep with
           | p :: ps => String c p :: ps
           | [] => [String c ""]
           end
  end.

(** The text before and after the first [sep], if any. *)
Fixpoint cut_at (s : string) (sep : Ascii.ascii) : option (string * string) :=
  match s with
  | EmptyString => None
  | String c s' =>
      if Ascii.eqb c sep then Some ("", s')
      else match cut_at s' sep with
           | Some (a, b) => Some (String c a, b)
           | None => None
           end
  end.

(** strings.SplitN(s, sep, 2) with a one-byte separator. *)
Definition SplitN2 (s : string) (sep : Ascii.ascii) : list string :=
  match cut_at s sep with
  | Some (a, b) => [a; b]
  | None => [s]
  end.

(** The body of parseLabels' loop for one pair. *)
Definition parse_label_pair (labels : gmap string string) (pair : string)
  : gmap string string :=
  match SplitN2 (TrimSpace pair) "="%char with
  | [k; v] =>
      let key := TrimSpace k in
      let value := TrimSpace v in
      if negb (String.eqb key "") then <[key := value]> labels else labels
  | _ => labels
  end.

(** parseLabels *)
Definition parseLabels (labelStr : string) : gmap string string :=
  fold_left parse_label_pair (Split labelStr ","%char) ∅.

Open Scope Z_scope.

Definition Second : Z := 1000000000.

(** The whole Config: the fields validate reads, the metadata endpoint and
    the static labels. *)
Record AgentConfig := mkAgentConfig {
  Base : Config;
  MetadataServiceEndpoint : string;
  Labels : gmap string string
}.

(** DefaultConfig; [h] is the host getVMIDFromDMIDecode probes. *)
Definition DefaultConfig (h : host) : AgentConfig :=
  mkAgentConfig
    (mkConfig (30 * Second) (30 * Second) (getVMIDFromDMIDecode h)
       (mkCollectorConfig true true true true true true true true true true
          true true true true true true true true true true true)
       "info" 3 (5 * Second))
    "http://169.254.169.254/metadata/v1/auth-token"
    ∅.

(** strconv.ParseBool *)
Definition ParseBool (s : string) : option bool :=
  if existsb (String.eqb s) ["1"; "t"; "T"; "TRUE"; "true"; "True"] then Some true
  else if existsb (String.eqb s) ["0"; "f"; "F"; "FALSE"; "false"; "False"]
  then Some false
  else None.

Section Env.

(** time.ParseDuration, kept abstract. *)
Variable ParseDuration : string -> option Z.

(** The environment: os.Getenv ("" when unset). *)
Variable env : string -> string.

(** [if val := os.Getenv(name); val != "" { if x, err := parse(val); err == nil { field = x } }] *)
Definition env_parsed {A} (parse : string -> option A) (name : string) (old : A) : A :=
  let val := env name in
  if String.eqb val "" then old
  else match parse val with Some x => x | None => old end.

Definition env_string (name : string) (old : string) : string :=
  let val := env name in if String.eqb val "" then old else val.

Definition loadCollectorEnvVars (k : CollectorConfig) : CollectorConfig :=
  mkCollectorConfig
    (env_parsed ParseBool "SC_COLLECTOR_PROCESSES" (Processes k))
    (env_parsed ParseBool "SC_COLLECTOR_CPU" (CPU k))
    (env_parsed ParseBool "SC_COLLECTOR_CPU_FREQ" (CPUFreq k))
    (env_parsed ParseBool "SC_COLLECTOR_LOADAVG" (LoadAvg k))
    (env_parsed ParseBool "SC_COLLECTOR_MEMORY" (Memory k))
    (env_parsed ParseBool "SC_COLLECTOR_VMSTAT" (VMStat k))
    (env_parsed ParseBool "SC_COLLECTOR_DISK" (Disk k))
    (env_parsed ParseBool "SC_COLLECTOR_DISKSTATS" (DiskStats k))
    (env_parsed ParseBool "SC_COLLECTOR_FILESYSTEM" (Filesystem k))
    (env_parsed ParseBool "SC_COLLECTOR_NETWORK" (Network k))
    (env_parsed ParseBool "SC_COLLECTOR_NETDEV" (NetDev k))
    (env_parsed ParseBool "SC_COLLECTOR_NETSTAT" (NetStat k))
    (env_parsed ParseBool "SC_COLLECTOR_SOCKSTAT" (Sockstat k))
    (env_parsed ParseBool "SC_COLLECTOR_UNAME" (Uname k))
    (env_parsed ParseBool "SC_COLLECTOR_TIME" (Time k))
    (env_parsed ParseBool "SC_COLLECTOR_UPTIME" (Uptime k))
    (env_parsed ParseBool "SC_COLLECTOR_ENTROPY" (Entropy k))
    (env_parsed ParseBool "SC_COLLECTOR_INTERRUPTS" (Interrupts k))
    (env_parsed ParseBool "SC_COLLECTOR_THERMAL" (Thermal k))
    (env_parsed ParseBool "SC_COLLECTOR_PRESSURE" (Pressure k))
    (env_parsed ParseBool "SC_COLLECTOR_SCHEDSTAT" (Schedstat k)).

(** [for k, v := range labels { c.Labels[k] = v }] *)
Definition merge_labels (into from : gmap string string) : gmap string string :=
  fold_left (fun m '(k, v) => <[k := v]> m) (map_to_list from) into.

(** loadFromEnv *)
Definition loadFromEnv (c : AgentConfig) : AgentConfig :=
  let b := Base c in
  let collectionInterval :=
    env_parsed ParseDuration "SC_COLLECTION_INTERVAL" (CollectionInterval b) in
  let endpoint := env_string "SC_METADATA_SERVICE_ENDPOINT" (MetadataServiceEndpoint c) in
  let httpTimeout := env_parsed ParseDuration "SC_HTTP_TIMEOUT" (HTTPTimeout b) in
  let vmID := env_string "SC_VM_ID" (VMID b) in
  let logLevel := env_string "SC_LOG_LEVEL" (LogLevel b) in
  let maxRetries := env_parsed TsClient.Atoi "SC_MAX_RETRIES" (MaxRetries b) in
  let retryInterval := env_parsed ParseDuration "SC_RETRY_INTERVAL" (RetryInterval b) in
  let labels :=
    let val := env "SC_LABELS" in
    if String.eqb val "" then Labels c else merge_labels (Labels c) (parseLabels val) in
  mkAgentConfig
    (mkConfig collectionInterval httpTimeout vmID
       (loadCollectorEnvVars (Collectors b)) logLevel maxRetries retryInterval)
    endpoint labels.

(** os.ReadFile followed by yaml.Unmarshal into the given config, kept
    abstract: the fields the file sets are overwritten, or an error. *)
Variable unmarshal : string -> AgentConfig -> result AgentConfig.

Definition with_vmid (c : AgentConfig) (vmID : string) : AgentConfig :=
  let b := Base c in
  mkAgentConfig
    (mkConfig (CollectionInterval b) (HTTPTimeout b) vmID (Collectors b)
       (LogLevel b) (MaxRetries b) (RetryInterval b))
    (MetadataServiceEndpoint c) (Labels c).

(** loadFromFile *)
Definition loadFromFile (path : string) (c : AgentConfig) : result AgentConfig :=
  let detectedVMID := VMID (Base c) in
  match unmarshal path c with
  | Err e => Err e
  | Ok c' =>
      if String.eqb (VMID (Base c')) "" && negb (String.eqb detectedVMID "")
      then Ok (with_vmid c' detectedVMID)
      else Ok c'
  end.

(** unicode.ToLower, which validate's strings.ToLower uses. *)
Variable unicode_ToLower : Z -> Z.

(** Load *)
Definition Load (h : host) : result AgentConfig :=
  let cfg := DefaultConfig h in
  let configPath := env "SC_AGENT_CONFIG" in
  let loaded :=
    if negb (String.eqb configPath "") then
      match loadFromFile configPath cfg with
      | Err e => Err ("failed to load config file " ++ configPath ++ ": " ++ e)
      | Ok c => Ok c
      end
    else Ok cfg in
  match loaded with
  | Err e => Err e
  | Ok cfg =>
      let cfg := loadFromEnv cfg in
      match validate unicode_ToLower (Base cfg) with
      | Some e => Err ("configuration validation failed: " ++ e)
      | None => Ok cfg
      end
  end.

End Env.

End ConfigMore.

(** cmd/agent: the zap level initLogger picks. *)
Module AgentMain.

Inductive level := DebugLevel | InfoLevel | WarnLevel | ErrorLevel | FatalLevel | PanicLevel.

Definition initLogger_level (logLevel : string) : level :=
  if String.eqb logLevel "debug" then DebugLevel
  else if String.eqb logLevel "info" then InfoLevel
  else if String.eqb logLevel "warn" then WarnLevel
  else if String.eqb logLevel "error" then ErrorLevel
  else if String.eqb logLevel "fatal" then FatalLevel
  else if String.eqb logLevel "panic" then PanicLevel
  else InfoLevel.

End AgentMain.

(* ===================================================================== *)
(** * fmt's %d, shared by the error messages below                       *)
(* ===================================================================== *)

Module GoFmt.

Open Scope Z_scope.

(** Decimal digits of a non-negative integer, most significant first
    ([fuel] bounds the digit count; [log2 n + 1] of them suffice). *)
Fixpoint utoa_aux (fuel : nat) (n : Z) (acc : string) : string :=
  match fuel with
  | O => acc
  | S f =>
      let acc' := String (Ascii.ascii_of_nat (48 + Z.to_nat (n mod 10))) acc in
      if n <? 10 then acc' else utoa_aux f (n / 10) acc'
  end.

(** strconv.Itoa, which is also what %d prints for an int. *)
Definition Itoa (z : Z) : string :=
  if z <? 0 then "-" ++ utoa_aux (Z.to_nat (Z.log2 (- z) + 1)) (- z) ""
  else utoa_aux (Z.to_nat (Z.log2 z + 1)) z "".

(** What %w prints for a nil error. *)
Definition nil_error_w : string := "%!w(<nil>)".

End GoFmt.

(* ===================================================================== *)
(** * tsclient: the requests of SendMetrics, SendDiagnostics and          *)
(**   SendHeartbeat                                                       *)
(* ===================================================================== *)

Module TsRequests.

Import TsClient GoFmt.

Definition ContentTypeTimeseriesBinary : string := "application/timeseries-binary-0".
Definition ContentTypeJSON : string := "application/json".
Definition ContentTypeDiagnostics : string := "application/diagnostics-binary-0".
Definition ContentEncodingSnappy : string := "snappy".
Definition UserAgentValue : string := "sc-metrics-agent/1.0".

(** The headers sendRequest sets (req.Header.Set, keys already canonical). *)
Definition sendRequest_headers (contentType authToken : string) : gmap string string :=
  let h : gmap string string := <["Content-Type" := contentType]> ∅ in
  let h := if negb (String.eqb contentType ContentTypeJSON)
           then <["Content-Encoding" := ContentEncodingSnappy]> h else h in
  let h := <["User-Agent" := UserAgentValue]> h in
  if negb (String.eqb authToken "") then <["Authorization" := "Bearer " ++ authToken]> h
  else h.

Section Requests.

(** Payload bytes, json.Marshal of the metrics and of the diagnostics, and
    snappy.Encode. *)
Variable bytes : Type.
Variable metric : Type.
Variable diagnostics : Type.
Variable marshal_metrics : list metric -> result bytes.
Variable marshal_diagnostics : diagnostics -> result bytes.
Variable snappy_encode : bytes -> bytes.

Record request := mkRequest {
  req_endpoint : string;
  req_content_type : string;
  req_headers : gmap string string;
  req_body : bytes
}.

(** A send either fails before any HTTP request, or posts one request
    (the same one at every attempt) and ends as the retry loop ends. *)
Inductive send_outcome :=
| EarlyErr (msg : string)
| Posted (req : request) (res : send_result * trace).

(** getIngestorEndpoint: [authMgr] is [None] for a nil AuthManager, else
    the URL its GetCloudAPIURL returns. *)
Definition getIngestorEndpoint (authMgr : option string) : result string :=
  match authMgr with
  | None => Err "AuthManager is required for endpoint resolution"
  | Some cloudAPIURL =>
      if String.eqb cloudAPIURL "" then Err "empty CloudAPI URL from metadata"
      else Ok (cloudAPIURL ++ "/resource-manager/api/v1/metrics/ingest")
  end.

Definition SendMetrics (c : Client) (e : env) (authMgr : option string)
  (metrics : list metric) (authToken : string) : send_outcome :=
  if Nat.eqb (length metrics) 0 then EarlyErr "no metrics to send" else
  match marshal_metrics metrics with
  | Err m => EarlyErr ("failed to marshal metrics: " ++ m)
  | Ok payload =>
      let compressed := snappy_encode payload in
      match getIngestorEndpoint authMgr with
      | Err m => EarlyErr ("failed to resolve ingestor endpoint: " ++ m)
      | Ok endpoint =>
          Posted (mkRequest endpoint ContentTypeTimeseriesBinary
                    (sendRequest_headers ContentTypeTimeseriesBinary authToken)
                    compressed)
                 (sendWithRetry c e)
      end
  end.

Definition SendDiagnostics (c : Client) (e : env) (authMgr : option string)
  (d : diagnostics) (authToken : string) : send_outcome :=
  match marshal_diagnostics d with
  | Err m => EarlyErr ("failed to marshal diagnostics: " ++ m)
  | Ok payload =>
      let compressed := snappy_encode payload in
      match getIngestorEndpoint authMgr with
      | Err m => EarlyErr ("failed to resolve ingestor endpoint: " ++ m)
      | Ok endpoint =>
          Posted (mkRequest endpoint ContentTypeDiagnostics
                    (sendRequest_headers ContentTypeDiagnostics authToken)
                    compressed)
                 (sendWithRetry c e)
      end
  end.

(** SendHeartbeat: one sendRequest, no retry loop.  [body] is the marshalled
    HeartbeatRequest; the outcome of the single attempt is that of attempt
    0 of [e]. *)
Definition SendHeartbeat (e : env) (authMgr : option string) (body : result bytes)
  (authToken : string) : result (request * result Response) :=
  match authMgr with
  | None => Err "AuthManager is required for heartbeat"
  | Some cloudAPIURL =>
      if String.eqb cloudAPIURL "" then Err "empty CloudAPI URL from metadata" else
      let url := cloudAPIURL ++ "/resource-manager/api/v1/compute/agent/heartbeat" in
      match body with
      | Err m => Err ("failed to marshal request: " ++ m)
      | Ok b =>
          let req := mkRequest url ContentTypeJSON
                       (sendRequest_headers ContentTypeJSON authToken) b in
          Ok (req, match wire_at e 0 with
                   | WireErr => Err "HTTP request failed"
                   | WireReply st hdr now =>
                       Ok (mkResponse st (parseRetryAfter (http_parse_time e) now hdr))
                   end)
      end
  end.

End Requests.

Arguments mkRequest {bytes}.
Arguments req_endpoint {bytes}.
Arguments req_content_type {bytes}.
Arguments req_headers {bytes}.
Arguments req_body {bytes}.
Arguments EarlyErr {bytes}.
Arguments Posted {bytes}.

End TsRequests.

(* ===================================================================== *)
(** * tsclient writers: metricWriter and BatchedMetricWriter              *)
(* ===================================================================== *)

Module Writers.

Import GoFmt AggregateMore.

Section Writers.

Variable float : Type.
Abbreviation MWV := (Aggregate.MetricWithValue float).

(** metricWriter.WriteMetrics.  [send] is client.SendMetrics as the writer
    sees it: an error, or the response status and body. *)
Definition metricWriter_WriteMetrics (send : list MWV -> string -> result (Z * string))
  (metrics : list MWV) (authToken : string) : option string :=
  if Nat.eqb (length metrics) 0 then None else
  match send metrics authToken with
  | Err e => Some ("failed to send metrics: " ++ e)
  | Ok (status, body) =>
      if (200 <=? status)%Z && (status <? 300)%Z then None
      else
        let errorMsg := "ingestor returned status " ++ Itoa status in
        let errorMsg := if Nat.ltb 0 (String.length body)
                        then errorMsg ++ ": " ++ body else errorMsg in
        Some ("failed to write metrics: " ++ errorMsg)
  end.

Definition NewBatchedMetricWriter (batchSize : Z) : Z :=
  if (batchSize <=? 0)%Z then 1000 else batchSize.

(** BatchedMetricWriter.WriteMetrics over the inner writer [write];
    [ctx_done i] is whether the context is done before batch [i], and
    [ctx_err] what ctx.Err() then says.  Besides the error, the batches
    handed to the inner writer, in order. *)
Variable write : list MWV -> string -> option string.
Variable ctx_done : nat -> bool.
Variable ctx_err : string.

Fixpoint write_batches (authToken : string) (total i : nat) (batches : list (list MWV))
  : option string * list (list MWV) :=
  match batches with
  | [] => (None, [])
  | batch :: rest =>
      if ctx_done i then (Some ctx_err, []) else
      match write batch authToken with
      | Some err =>
          (Some ("failed to write batch " ++ Itoa (Z.of_nat (i + 1)) ++ "/" ++
                 Itoa (Z.of_nat total) ++ ": " ++ err), [batch])
      | None =>
          let '(res, sent) := write_batches authToken total (S i) rest in
          (res, batch :: sent)
      end
  end.

Definition Batched_WriteMetrics (batchSize : Z) (metrics : list MWV) (authToken : string)
  : option string * list (list MWV) :=
  if Nat.eqb (length metrics) 0 then (None, []) else
  let batches := BatchMetrics float metrics batchSize in
  write_batches authToken (length batches) 0 batches.

End Writers.

End Writers.

(* ===================================================================== *)
(** * metadata: GetAuthTokenWithRetry, GetCloudAPIURL, AuthManager        *)
(* ===================================================================== *)

Module MetadataMore.

Import Metadata GoFmt.

Open Scope Z_scope.

Section Retry.

(** The clock readings GetAuthToken takes at attempt [k], the metadata
    reply it meets there, and whether the context is done before it. *)
Variable clock : nat -> Z * Z * Z.
Variable reply : nat -> fetch_reply.
Variable ctx_done : nat -> bool.
Variable ctx_err : string.
Variable maxRetries : Z.

(** The loop of GetAuthTokenWithRetry; besides the result and the client,
    the number of metadata fetches made. *)
Fixpoint auth_retry_loop (fuel attempt : nat) (c : Client) (lastErr : option string)
  : result string * Client * nat :=
  match fuel with
  | O =>
      (Err ("failed to fetch auth token after " ++ Itoa (maxRetries + 1) ++
            " attempts: " ++ match lastErr with Some e => e | None => nil_error_w end),
       c, 0%nat)
  | S fuel' =>
      if ctx_done attempt then (Err ctx_err, c, 0%nat) else
      let '(n1, n2, n3) := clock attempt in
      match GetAuthToken c n1 n2 n3 (reply attempt) with
      | (Ok token, c', fetched) => (Ok token, c', if fetched then 1%nat else 0%nat)
      | (Err e, c', fetched) =>
          let '(res, c'', k) := auth_retry_loop fuel' (S attempt) c' (Some e) in
          (res, c'', (if fetched then 1 else 0) + k)%nat
      end
  end.

Definition GetAuthTokenWithRetry (c : Client) : result string * Client * nat :=
  auth_retry_loop (Z.to_nat (maxRetries + 1)) 0 c None.

End Retry.

(** GetCloudAPIURL: [now0] is the clock of the cache check, [now1 now2
    now3] those of the GetAuthToken call. *)
Definition GetCloudAPIURL (c : Client) (now0 now1 now2 now3 : Z) (r : fetch_reply)
  : result string * Client * bool :=
  if negb (String.eqb (cachedAPIURL c) "") && (now0 <? tokenExpiry c)
  then (Ok (cachedAPIURL c), c, false) else
  match GetAuthToken c now1 now2 now3 r with
  | (Err e, c', fetched) => (Err ("failed to get CloudAPI URL: " ++ e), c', fetched)
  | (Ok _, c', fetched) =>
      if String.eqb (cachedAPIURL c') ""
      then (Err "CloudAPI URL not available in metadata response", c', fetched)
      else (Ok (cachedAPIURL c'), c', fetched)
  end.

Record AuthManager := mkAuthManager {
  client : Client;
  currentToken : string
}.

(** fetchAndStoreToken; the result also says whether a fetch was made. *)
Definition fetchAndStoreToken (am : AuthManager) (forceFetch : bool)
  (now1 now2 now3 : Z) (r : fetch_reply) : option string * AuthManager * bool :=
  let c := if forceFetch then InvalidateCache (client am) else client am in
  match GetAuthToken c now1 now2 now3 r with
  | (Err e, c', fetched) => (Some e, mkAuthManager c' (currentToken am), fetched)
  | (Ok token, c', fetched) => (None, mkAuthManager c' token, fetched)
  end.

Definition EnsureValidToken (am : AuthManager) := fetchAndStoreToken am false.
Definition refresh (am : AuthManager) := fetchAndStoreToken am true.

End MetadataMore.

(* ===================================================================== *)
(** * pipeline: Processor.Process and the diagnostics status             *)
(* ===================================================================== *)

Module Pipeline.

Section Process.

Variable float : Type.
Abbreviation MWV := (Aggregate.MetricWithValue float).

(** The stages behind the Processor's interfaces: families, the
    collector, decorator, aggregator and writer, and the context: whether
    it is done at check [k] (four checks), and ctx.Err(). *)
Variable family : Type.
Variable Collect : result (list family).
Variable Decorate : list family -> result (list family).
Variable Aggregate : list family -> result (list MWV).
Variable WriteMetrics : list MWV -> string -> option string.
Variable ctx_done : nat -> bool.
Variable ctx_err : string.

Record Processor := mkProcessor {
  lastProcessTime : Z;
  lastMetricCount : nat;
  lastError : string
}.

(** Process with [authToken] = GetCurrentToken() and [startTime] the clock
    reading; the error, the processor after the call, and the arguments of
    the WriteMetrics call when one is made. *)
Definition Process (p : Processor) (authToken : string) (startTime : Z)
  : option string * Processor * option (list MWV * string) :=
  if String.eqb authToken "" then
    (Some "auth token is empty - refresh may have failed",
     mkProcessor (lastProcessTime p) (lastMetricCount p) "auth token is empty", None)
  else if ctx_done 0 then (Some ctx_err, p, None) else
  match Collect with
  | Err e =>
      (Some ("failed to collect metrics: " ++ e),
       mkProcessor (lastProcessTime p) (lastMetricCount p) ("collection failed: " ++ e), None)
  | Ok metricFamilies =>
      if Nat.eqb (length metricFamilies) 0 then (None, p, None) else
      if ctx_done 1 then (Some ctx_err, p, None) else
      match Decorate metricFamilies with
      | Err e =>
          (Some ("failed to decorate metrics: " ++ e),
           mkProcessor (lastProcessTime p) (lastMetricCount p) ("decoration failed: " ++ e),
           None)
      | Ok decoratedFamilies =>
          if ctx_done 2 then (Some ctx_err, p, None) else
          match Aggregate decoratedFamilies with
          | Err e =>
              (Some ("failed to aggregate metrics: " ++ e),
               mkProcessor (lastProcessTime p) (lastMetricCount p)
                           ("aggregation failed: " ++ e), None)
          | Ok aggregatedMetrics =>
              if Nat.eqb (length aggregatedMetrics) 0 then (None, p, None) else
              let aggregatedMetrics := Aggregate.SortMetrics float aggregatedMetrics in
              if ctx_done 3 then (Some ctx_err, p, None) else
              match WriteMetrics aggregatedMetrics authToken with
              | Some e =>
                  (Some ("failed to write metrics: " ++ e),
                   mkProcessor (lastProcessTime p) (lastMetricCount p)
                               ("write failed: " ++ e),
                   Some (aggregatedMetrics, authToken))
              | None =>
                  (None, mkProcessor startTime (length aggregatedMetrics) "",
                   Some (aggregatedMetrics, authToken))
              end
          end
      end
  end.

End Process.

(** The status WriteDiagnostics reports. *)
Definition diagnostics_status (lastError : string) : string :=
  if negb (String.eqb lastError "") then "error" else "healthy".

End Pipeline.

(* ===================================================================== *)
(** * Proofs                                                              *)
(* ===================================================================== *)

Module IdentityProofs.

Import Identity.

Definition invalid_or_failed (run : string -> probe_outcome) (q : string) : Prop :=
  run q = ProbeFailed \/
  exists o, run q = ProbeOutput o /\ valid_vm_id (TrimSpace o) = false.

Lemma valid_vm_id_nonempty (v : string) : valid_vm_id v = true -> v <> "".
Proof. intros Hv ->. discriminate Hv. Qed.

(** A non-empty result is the trimmed output of the first path whose run
    produced a valid value; every earlier path failed or was invalid. *)
Lemma probe_paths_first (run : string -> probe_outcome) (paths : list string) :
  probe_paths run paths = "" \/
  exists pre p post out,
    paths = (pre ++ p :: post)%list /\ run p = ProbeOutput out /\
    TrimSpace out = probe_paths run paths /\
    valid_vm_id (TrimSpace out) = true /\
    Forall (invalid_or_failed run) pre.
Proof.
  induction paths as [|a ps IH]; simpl; [left; reflexivity|].
  destruct (run a) as [| |out] eqn:Ha; [left; reflexivity| |].
  - destruct IH as [IH|(pre & p & post & out & Hps & Hp & Ht & Hv & Hpre)];
      [left; exact IH|right].
    exists (a :: pre), p, post, out.
    split; [rewrite Hps; reflexivity|]. repeat split; auto.
    constructor; [left; exact Ha | exact Hpre].
  - destruct (valid_vm_id (TrimSpace out)) eqn:Hv.
    + right. exists [], a, ps, out. repeat split; auto.
    + destruct IH as [IH|(pre & p & post & out' & Hps & Hp & Ht & Hv' & Hpre)];
        [left; exact IH|right].
      exists (a :: pre), p, post, out'.
      split; [rewrite Hps; reflexivity|]. repeat split; auto.
      constructor; [right; exists out; split; assumption | exact Hpre].
Qed.

Lemma probe_paths_skip (run : string -> probe_outcome) (pre rest : list string) :
  Forall (invalid_or_failed run) pre -> probe_paths run (pre ++ rest) = probe_paths run rest.
Proof.
  induction 1 as [|q qs Hq _ IH]; [reflexivity|]. cbn [app probe_paths].
  destruct Hq as [Hq|(o & Hq & Hv)]; rewrite Hq; [exact IH|].
  cbv zeta. rewrite Hv. exact IH.
Qed.

Lemma probe_paths_all_invalid (run : string -> probe_outcome) (paths : list string) :
  Forall (invalid_or_failed run) paths -> probe_paths run paths = "".
Proof. intros H. rewrite <- (app_nil_r paths), (probe_paths_skip run paths [] H). reflexivity. Qed.


(** C1 (counterexample): every dmidecode run fails and /etc/machine-id holds
    an identifier, yet the resolver returns "", not the trimmed machine-id
    that the fallback order of the spec gives. *)
Lemma getVMID_ignores_machine_id :
  getVMIDFromDMIDecode
    (mkHost (fun _ => ProbeFailed) (Some "4c4c4544-0042-3510-8052-b4c04f4a5331
") None (Some "vm-host")) = "" /\
  vm_id_resolution_spec
    (mkHost (fun _ => ProbeFailed) (Some "4c4c4544-0042-3510-8052-b4c04f4a5331
") None (Some "vm-host")) = "4c4c4544-0042-3510-8052-b4c04f4a5331" /\
  "" <> "4c4c4544-0042-3510-8052-b4c04f4a5331".
Proof. vm_compute. repeat split; discriminate. Qed.

(** C1 (amended): the resolver reads only the dmidecode runs, never the
    machine-id, boot-id or host name.  Trying the three paths in order, it
    returns the trimmed output of the first run whose trimmed output is
    valid (not "", "Not Settable", "Not Specified" or prefixed by
    "00000000-0000-0000"), every earlier run having failed or produced an
    invalid value; it returns "" when the shared timeout expires before
    that, and when every run fails or is invalid.  Conversely a non-empty
    result is always such a first valid output. *)
Theorem getVMIDFromDMIDecode_dmidecode_only (h : host) :
  (forall h', run_dmidecode h' = run_dmidecode h ->
              getVMIDFromDMIDecode h' = getVMIDFromDMIDecode h) /\
  (forall pre p post out,
     dmidecodePaths = (pre ++ p :: post)%list ->
     Forall (invalid_or_failed (run_dmidecode h)) pre ->
     run_dmidecode h p = ProbeOutput out -> valid_vm_id (TrimSpace out) = true ->
     getVMIDFromDMIDecode h = TrimSpace out) /\
  (forall pre p post,
     dmidecodePaths = (pre ++ p :: post)%list ->
     Forall (invalid_or_failed (run_dmidecode h)) pre ->
     run_dmidecode h p = ProbeTimedOut ->
     getVMIDFromDMIDecode h = "") /\
  (Forall (invalid_or_failed (run_dmidecode h)) dmidecodePaths ->
   getVMIDFromDMIDecode h = "") /\
  (getVMIDFromDMIDecode h = "" \/
   exists pre p post out,
     dmidecodePaths = (pre ++ p :: post)%list /\ run_dmidecode h p = ProbeOutput out /\
     TrimSpace out = getVMIDFromDMIDecode h /\
     valid_vm_id (TrimSpace out) = true /\
     Forall (invalid_or_failed (run_dmidecode h)) pre).
Proof.
  split; [|split; [|split; [|split]]].
  - intros h' Hrun. unfold getVMIDFromDMIDecode. rewrite Hrun. reflexivity.
  - intros pre p post out Hps Hpre Hp Hv. unfold getVMIDFromDMIDecode.
    rewrite Hps, (probe_paths_skip _ pre (p :: post) Hpre). cbn [probe_paths].
    rewrite Hp. cbv zeta. rewrite Hv. reflexivity.
  - intros pre p post Hps Hpre Hp. unfold getVMIDFromDMIDecode.
    rewrite Hps, (probe_paths_skip _ pre (p :: post) Hpre). cbn [probe_paths].
    rewrite Hp. reflexivity.
  - apply probe_paths_all_invalid.
  - apply probe_paths_first.
Qed.


End IdentityProofs.

Module TsClientProofs.

Import TsClient.

Lemma retry_loop_nonempty (e : env) (d : Z) (fuel k : nat) (last : option Response) :
  (0 < length (snd (retry_loop e d fuel k last)))%nat <->
  (0 < fuel)%nat /\ ctx_done_before e k = false.
Proof.
  destruct fuel as [|f]; simpl; [split; [lia|intros [H _]; lia]|].
  destruct (ctx_done_before e k); simpl; [split; [lia|intros [_ H]; discriminate]|].
  destruct (wire_at e k) as [|st hdr now];
    [|destruct (shouldRetry st)];
    try destruct (retry_loop _ _ _ _ _); simpl;
    (split; [intros _; split; [lia|reflexivity] | intros _; lia]).
Qed.

(** Attempts are numbered from [k] without gaps; at most [fuel] are made;
    attempt [i] is followed by attempt [S i] exactly when it failed in a
    retryable way, the loop bound allows it and the context is not done. *)
Lemma retry_loop_spec (e : env) (d : Z) (fuel k : nat) (last : option Response) :
  let tr := snd (retry_loop e d fuel k last) in
  map fst tr = seq k (length tr) /\ (length tr <= fuel)%nat /\
  (forall i, (k <= i < k + length tr)%nat ->
     ((S i < k + length tr)%nat <->
      retryable (wire_at e i) = true /\ (S i < k + fuel)%nat /\
      ctx_done_before e (S i) = false)).
Proof.
  revert k last. induction fuel as [|f IH]; intros k last; simpl.
  { repeat split; try lia; simpl; intros i Hi; lia. }
  destruct (ctx_done_before e k) eqn:Hk; simpl.
  { repeat split; try lia; intros i Hi; lia. }
  assert (Hstep : forall last',
    let tr' := snd (retry_loop e d f (S k) last') in
    retryable (wire_at e k) = true ->
    map fst ((k, wait_before d k last) :: tr') = seq k (length ((k, wait_before d k last) :: tr')) /\
    (length ((k, wait_before d k last) :: tr') <= S f)%nat /\
    (forall i, (k <= i < k + length ((k, wait_before d k last) :: tr'))%nat ->
       ((S i < k + length ((k, wait_before d k last) :: tr'))%nat <->
        retryable (wire_at e i) = true /\ (S i < k + S f)%nat /\
        ctx_done_before e (S i) = false))).
  { intros last' tr' Hr. subst tr'.
    destruct (IH (S k) last') as (Hseq & Hlen & Hiff).
    pose proof (retry_loop_nonempty e d f (S k) last') as Hne.
    simpl. rewrite Hseq. split; [reflexivity|]. split; [lia|].
    intros i Hi. destruct (Nat.eq_dec i k) as [->|Hik].
    - rewrite Hr. split.
      + intros Hlt. assert (H0 : (0 < length (snd (retry_loop e d f (S k) last')))%nat) by lia.
        apply Hne in H0. destruct H0 as [Hf Hc]. repeat split; [lia|exact Hc].
      + intros (_ & Hf & Hc). assert (H0 : (0 < f)%nat /\ ctx_done_before e (S k) = false)
          by (split; [lia|exact Hc]).
        apply Hne in H0. lia.
    - specialize (Hiff i ltac:(lia)).
      replace (k + S f)%nat with (S k + f)%nat by lia.
      replace (k + S (length (snd (retry_loop e d f (S k) last'))))%nat
        with (S k + length (snd (retry_loop e d f (S k) last')))%nat by lia.
      exact Hiff. }
  destruct (wire_at e k) as [|st hdr now] eqn:Hw.
  - pose proof (Hstep last ltac:(first [reflexivity | rewrite Hw; reflexivity])) as H.
    destruct (retry_loop e d f (S k) last) eqn:Hl. exact H.
  - destruct (shouldRetry st) eqn:Hs.
    + pose proof (Hstep (Some (mkResponse st (parseRetryAfter (http_parse_time e) now hdr)))
        ltac:(first [exact Hs | rewrite Hw; exact Hs])) as H.
      destruct (retry_loop _ _ _ _ _) eqn:Hl. exact H.
    + simpl. split; [reflexivity|]. split; [lia|]. intros j Hj.
      assert (j = k) by lia. subst j. rewrite Hw. simpl. rewrite Hs. split; [lia|].
      intros (Hf & _). discriminate Hf.
Qed.

(** A made attempt that got a non-retryable status is the last one, and
    its response is returned. *)
Lemma retry_loop_terminal (e : env) (d : Z) (fuel k : nat) (last : option Response)
  (i : nat) (st : Z) (hdr : string) (now : Z) :
  (k <= i < k + length (snd (retry_loop e d fuel k last)))%nat ->
  wire_at e i = WireReply st hdr now -> shouldRetry st = false ->
  S i = (k + length (snd (retry_loop e d fuel k last)))%nat /\
  fst (retry_loop e d fuel k last) =
    SendOk (mkResponse st (parseRetryAfter (http_parse_time e) now hdr)).
Proof.
  revert k last. induction fuel as [|f IH]; intros k last Hi Hw Hs; simpl in *; [lia|].
  destruct (ctx_done_before e k); simpl in *; [lia|].
  destruct (Nat.eq_dec i k) as [->|Hik].
  - rewrite Hw, Hs. simpl. split; [lia|reflexivity].
  - destruct (wire_at e k) as [|st' hdr' now'] eqn:Hwk.
    + destruct (retry_loop e d f (S k) last) as [res tr] eqn:Hl. simpl in *.
      pose proof (IH (S k) last) as IH'. rewrite Hl in IH'. simpl in IH'.
      destruct (IH' ltac:(lia) Hw Hs) as [H1 H2]. split; [lia|exact H2].
    + destruct (shouldRetry st') eqn:Hs'.
      * destruct (retry_loop e d f (S k) _) as [res tr] eqn:Hl. simpl in *.
        pose proof (IH (S k) (Some (mkResponse st' (parseRetryAfter (http_parse_time e) now' hdr'))))
          as IH'. rewrite Hl in IH'. simpl in IH'.
        destruct (IH' ltac:(lia) Hw Hs) as [H1 H2]. split; [lia|exact H2].
      * simpl in Hi. lia.
Qed.

(** C2: the retry policy of sendWithRetry.  [n] attempts are made, numbered
    0 .. n-1; n is at most 1 + maxRetries; attempt [i] is followed by
    another exactly when it had a connection error or a 429/500/502/503/504
    status, the bound allows one more and the context is not done; a
    non-retryable status ends the loop and its response is returned. *)
Theorem sendWithRetry_retry_policy (c : Client) (e : env) :
  let tr := snd (sendWithRetry c e) in
  let n := length tr in
  (n <= Z.to_nat (maxRetries c + 1))%nat /\
  map fst tr = seq 0 n /\
  (forall st, shouldRetry st = true <-> In st [429; 500; 502; 503; 504]) /\
  (forall i, (i < n)%nat ->
     ((S i < n)%nat <->
      retryable (wire_at e i) = true /\ (S i < Z.to_nat (maxRetries c + 1))%nat /\
      ctx_done_before e (S i) = false)) /\
  (forall i st hdr now, (i < n)%nat -> wire_at e i = WireReply st hdr now ->
     shouldRetry st = false ->
     S i = n /\
     fst (sendWithRetry c e) =
       SendOk (mkResponse st (parseRetryAfter (http_parse_time e) now hdr))).
Proof.
  unfold sendWithRetry.
  destruct (retry_loop_spec e (retryDelay c) (Z.to_nat (maxRetries c + 1)) 0 None)
    as (Hseq & Hlen & Hiff).
  split; [exact Hlen|]. split; [exact Hseq|]. split.
  { intros st. unfold shouldRetry. simpl.
    split; [intros H; repeat (apply orb_true_iff in H as [H|H]; [apply Z.eqb_eq in H; subst; simpl; tauto|]);
            discriminate H|].
    intros H. repeat destruct H as [H|H]; subst; reflexivity || contradiction. }
  split.
  - intros i Hi. apply (Hiff i). lia.
  - intros i st hdr now Hi Hw Hs.
    apply (retry_loop_terminal e _ _ 0 None i st hdr now); [lia|exact Hw|exact Hs].
Qed.

(** C8 (code_bug evidence): a 503 reply carrying [Retry-After: 18446744074]
    (a positive delta-seconds value that Atoi accepts) makes the client wait
    290448384 ns, about 0.29 s, before the retry: the product
    [time.Duration(seconds) * time.Second] wraps around int64 instead of
    giving 18446744074 seconds. *)
Lemma retry_after_wraps_int64 :
  Atoi "18446744074" = Some 18446744074 /\
  snd (sendWithRetry (NewClient (mkClientConfig 0 3 0))
         (mkEnv (fun k => if Nat.eqb k 0 then WireReply 503 "18446744074" 0
                          else WireReply 200 "" 0)
                (fun _ => false) (fun _ => None)))
    = [(0%nat, 0); (1%nat, 290448384)] /\
  290448384 <> 18446744074 * Second.
Proof. vm_compute. split; [reflexivity|]. split; [reflexivity|discriminate]. Qed.

(** C10: validate lets max_retries = 0 through (a complete valid
    configuration with it exists), while NewClient turns every
    MaxRetries <= 0 into the default 3, so a client built from it may make
    4 attempts per send; NewClient never yields 0 retries, and SetMaxRetries 0
    does.  This holds whatever unicode.ToLower does on non-ASCII runes. *)
Theorem zero_max_retries_replaced_by_default (unicode_ToLower : Z -> Z) :
  (forall c : Config.Config, Config.MaxRetries c = 0 ->
     Config.validate unicode_ToLower c <> Some "max_retries cannot be negative") /\
  (exists c : Config.Config, Config.MaxRetries c = 0 /\
     Config.validate unicode_ToLower c = None) /\
  (forall cc, cfg_MaxRetries cc <= 0 -> maxRetries (NewClient cc) = DefaultMaxRetries) /\
  DefaultMaxRetries = 3 /\
  (forall cc, 0 < maxRetries (NewClient cc)) /\
  (forall cc (e : env), cfg_MaxRetries cc = 0 ->
     (length (snd (sendWithRetry (NewClient cc) e)) <= 4)%nat) /\
  (forall cc, cfg_MaxRetries cc = 0 ->
     length (snd (sendWithRetry (NewClient cc)
                    (mkEnv (fun _ => WireErr) (fun _ => false) (fun _ => None)))) = 4%nat) /\
  (forall cl : Client, maxRetries (SetMaxRetries cl 0) = 0).
Proof.
  split; [|split; [|split; [|split; [|split; [|split; [|split]]]]]].
  - intros c H0. unfold Config.validate. rewrite H0. simpl.
    repeat match goal with |- context [if ?b then _ else _] => destruct b end;
      discriminate.
  - exists (Config.mkConfig 10 30 "vm-1"
              (Config.mkCollectorConfig true true true true true true true true
                 true true true true true true true true true true true true true)
              "info" 0 5).
    split; reflexivity.
  - intros cc H. unfold NewClient. simpl. apply Z.leb_le in H. rewrite H. reflexivity.
  - reflexivity.
  - intros cc. unfold NewClient. simpl.
    destruct (cfg_MaxRetries cc <=? 0) eqn:H; [unfold DefaultMaxRetries; lia|].
    apply Z.leb_gt in H. exact H.
  - intros cc e H. unfold sendWithRetry.
    assert (Hm : maxRetries (NewClient cc) = 3)
      by (unfold NewClient; cbn; rewrite H; reflexivity).
    rewrite Hm. exact (proj1 (proj2 (retry_loop_spec e _ 4 0 None))).
  - intros cc H. unfold sendWithRetry.
    assert (Hm : maxRetries (NewClient cc) = 3)
      by (unfold NewClient; cbn; rewrite H; reflexivity).
    rewrite Hm. reflexivity.
  - intros cl. reflexivity.
Qed.

End TsClientProofs.

Module CollectorProofs.

Import Config Collector.

Lemma enable_if_keeps (on : bool) (key x : string) (enabled : list string) :
  In x enabled -> In x (enable_if on key enabled).
Proof.
  intros H. unfold enable_if, addCollector.
  destruct on; [apply in_or_app; left|]; exact H.
Qed.

(** C9 (counterexample): a configuration that turns every collector off
    still builds a registry, with the Go runtime and process collectors. *)
Lemma collectors_all_off_still_built :
  NewSystemCollector
    (mkCollectorConfig false false false false false false false false false
       false false false false false false false false false false false false)
    true = Ok ["go"; "process"].
Proof. reflexivity. Qed.

(** C9 (amended): NewSystemCollector fails exactly when procfs cannot be
    initialised; on success the Go runtime and process collectors are
    enabled, so the enabled set is never empty and the "no collectors
    enabled" error is never returned. *)
Theorem NewSystemCollector_fails_iff_procfs (cfg : CollectorConfig) (procfs_ok : bool) :
  ((exists msg, NewSystemCollector cfg procfs_ok = Err msg) <-> procfs_ok = false) /\
  (forall enabled, NewSystemCollector cfg procfs_ok = Ok enabled ->
     In "go" enabled /\ In "process" enabled) /\
  NewSystemCollector cfg procfs_ok <> Err "no collectors enabled".
Proof.
  assert (Hin : forall x, In x ["go"; "process"] ->
    In x (enable_if (Filesystem cfg) "filesystem"
           (enable_if (NetDev cfg) "network"
             (enable_if (DiskStats cfg) "diskstats"
               (enable_if (LoadAvg cfg) "loadavg"
                 (enable_if (Memory cfg) "memory"
                   (enable_if (CPU cfg) "cpu" ["go"; "process"]))))))).
  { intros x Hx. repeat apply enable_if_keeps. exact Hx. }
  assert (Hne : Nat.eqb (length (enable_if (Filesystem cfg) "filesystem"
           (enable_if (NetDev cfg) "network"
             (enable_if (DiskStats cfg) "diskstats"
               (enable_if (LoadAvg cfg) "loadavg"
                 (enable_if (Memory cfg) "memory"
                   (enable_if (CPU cfg) "cpu" ["go"; "process"]))))))) 0 = false).
  { specialize (Hin "go" (or_introl eq_refl)).
    destruct (enable_if _ _ _) as [|y ys]; [contradiction|reflexivity]. }
  unfold NewSystemCollector. destruct procfs_ok; simpl negb; cbv iota beta.
  - rewrite Hne. split; [|split].
    + split; [intros [msg H]; discriminate H | intros H; discriminate H].
    + intros enabled H. injection H as <-. split; apply Hin; simpl; tauto.
    + discriminate.
  - split; [|split].
    + split; [intros _; reflexivity | intros _; eexists; reflexivity].
    + intros enabled H. discriminate H.
    + discriminate.
Qed.

End CollectorProofs.

Module MetadataProofs.

Import Metadata.
Open Scope Z_scope.

(** C6: after a call that fetched a token successfully, a second call whose
    first clock reading is less than the cache lifetime after the first
    call's first reading (no InvalidateCache in between) returns the same
    token without fetching, whatever the endpoint would reply; the fetch set
    the expiry to the post-fetch clock plus the lifetime, which is 30
    minutes for a new client and never changed by GetAuthToken. *)
Theorem GetAuthToken_cached_within_lifetime
  (c0 c1 : Client) (t1 t1' t1'' t2 t2' t2'' : Z) (r1 r2 : fetch_reply) (tok : string) :
  GetAuthToken c0 t1 t1' t1'' r1 = (Ok tok, c1, true) ->
  t1 <= t1' <= t1'' -> t1'' <= t2 ->
  t2 - t1 < tokenLifetime c0 ->
  GetAuthToken c1 t2 t2' t2'' r2 = (Ok tok, c1, false) /\
  tokenExpiry c1 = t1'' + tokenLifetime c0 /\
  tokenLifetime c1 = tokenLifetime c0 /\
  tokenLifetime NewClient = 30 * 60 * 1000000000.
Proof.
  intros Hcall Ht1 Ht2 Hlt. unfold GetAuthToken in Hcall.
  destruct (cache_valid c0 t1); [discriminate Hcall|].
  destruct (cache_valid c0 t1'); [discriminate Hcall|].
  destruct (fetchAuthToken r1) as [tr|e] eqn:Hf; [|discriminate Hcall].
  injection Hcall as Htok <-.
  assert (Hne : String.eqb (Token tr) "" = false).
  { unfold fetchAuthToken in Hf. destruct r1 as [|st dec]; [discriminate Hf|].
    destruct (negb (st =? 200)); [discriminate Hf|].
    destruct dec as [tr'|]; [|discriminate Hf].
    destruct (String.eqb (Token tr') "") eqn:He; [discriminate Hf|].
    injection Hf as <-. exact He. }
  unfold GetAuthToken, cache_valid. cbn [cachedToken tokenExpiry tokenLifetime].
  rewrite Hne. simpl negb.
  assert (Hb : (t2 <? t1'' + tokenLifetime c0) = true) by (apply Z.ltb_lt; lia).
  rewrite Hb. simpl. subst tok. repeat split; reflexivity.
Qed.

End MetadataProofs.

Module SortProofs.

Import Aggregate.

Section SortBy.

Context {A : Type} (less : A -> A -> bool).
Hypothesis less_asym : forall a b, less a b = true -> less b a = false.

Definition not_after (a b : A) : Prop := less b a = false.

Lemma insert_by_sorted (x : A) (l : list A) :
  Sorted not_after l -> Sorted not_after (insert_by less x l).
Proof.
  induction 1 as [|y r Hs IH Hhd]; simpl.
  - repeat constructor.
  - destruct (less x y) eqn:Hxy.
    + constructor; [constructor; assumption|]. constructor. unfold not_after.
      apply less_asym. exact Hxy.
    + constructor; [exact IH|].
      destruct r as [|z r']; simpl.
      * constructor. exact Hxy.
      * inversion Hhd as [|? ? Hyz]; subst.
        destruct (less x z); constructor; [exact Hxy|exact Hyz].
Qed.

Lemma insert_by_perm (x : A) (l : list A) : Permutation (x :: l) (insert_by less x l).
Proof.
  induction l as [|y r IH]; simpl; [reflexivity|].
  destruct (less x y); [reflexivity|].
  transitivity (y :: x :: r); [constructor|]. constructor. exact IH.
Qed.

Lemma sort_by_sorted (l : list A) : Sorted not_after (sort_by less l).
Proof. induction l; simpl; [constructor|apply insert_by_sorted; assumption]. Qed.

Lemma sort_by_perm (l : list A) : Permutation l (sort_by less l).
Proof.
  induction l as [|x r IH]; simpl; [reflexivity|].
  transitivity (x :: sort_by less r); [constructor; exact IH|apply insert_by_perm].
Qed.

End SortBy.

Lemma Sorted_weaken {A : Type} (R R' : A -> A -> Prop) (l : list A) :
  (forall a b, R a b -> R' a b) -> Sorted R l -> Sorted R' l.
Proof.
  intros HR. induction 1 as [|x r _ IH Hhd]; constructor; [exact IH|].
  destruct Hhd; constructor. apply HR. assumption.
Qed.

Lemma str_lt_asym (a b : string) : str_lt a b = true -> str_lt b a = false.
Proof.
  unfold str_lt. rewrite (String.compare_antisym b a).
  destruct (String.compare a b); simpl; congruence.
Qed.

Lemma str_lt_false (a b : string) : str_lt b a = false -> String.compare a b <> Gt.
Proof.
  unfold str_lt. rewrite (String.compare_antisym b a).
  destruct (String.compare a b); simpl; congruence.
Qed.

Section Records.

Variable float : Type.

Lemma metric_less_asym (a b : MetricWithValue float) :
  metric_less float a b = true -> metric_less float b a = false.
Proof.
  unfold metric_less. rewrite (String.eqb_sym (MName float b)).
  destruct (String.eqb (MName float a) (MName float b)); simpl; apply str_lt_asym.
Qed.

Lemma not_after_key_le (a b : MetricWithValue float) :
  not_after (metric_less float) a b -> record_key_le float a b.
Proof.
  unfold not_after, metric_less, record_key_le.
  destruct (String.eqb_spec (MName float b) (MName float a)) as [Heq|Hne]; simpl.
  - intros H. right. split; [symmetry; exact Heq|]. apply str_lt_false. exact H.
  - intros H. left. apply str_lt_false in H.
    destruct (String.compare (MName float a) (MName float b)) eqn:Hc;
      [|reflexivity|contradiction].
    apply String.compare_eq_iff in Hc. congruence.
Qed.

End Records.

(** C4: SortMetrics returns a permutation of its input that is sorted
    ascending by (name, label fingerprint); the fingerprint joins "k=v"
    with "," over the label keys sorted ascending. *)
Theorem SortMetrics_sorted (float : Type) (metrics : list (MetricWithValue float)) :
  Sorted (record_key_le float) (SortMetrics float metrics) /\
  Permutation metrics (SortMetrics float metrics) /\
  (forall labels : gmap string string,
     labelFingerprint labels =
       (if Nat.eqb (size labels) 0 then "" else
        let keys := sort_by str_lt (map fst (map_to_list labels)) in
        Join (map (fun k => k ++ "=" ++ default "" (labels !! k)) keys) ",") /\
     Sorted (fun k k' => String.compare k k' <> Gt)
       (sort_by str_lt (map fst (map_to_list labels))) /\
     Permutation (map fst (map_to_list labels))
       (sort_by str_lt (map fst (map_to_list labels)))).
Proof.
  split; [|split].
  - unfold SortMetrics. eapply Sorted_weaken; [|apply sort_by_sorted, metric_less_asym].
    intros a b. apply not_after_key_le.
  - apply sort_by_perm.
  - intros labels. split; [reflexivity|]. split.
    + eapply Sorted_weaken; [|apply sort_by_sorted, str_lt_asym].
      intros a b. apply str_lt_false.
    + apply sort_by_perm.
Qed.

End SortProofs.

Module AggregateProofs.

Import Aggregate.

Section Proofs.

Variable float : Type.
Variable float_of_u64 : Z -> float.
Variable fmt_g : float -> string.

Abbreviation processMetric := (processMetric float float_of_u64 fmt_g).
Abbreviation process_metrics := (process_metrics float float_of_u64 fmt_g).
Abbreviation process_families := (process_families float float_of_u64 fmt_g).
Abbreviation Aggregate := (Aggregate float float_of_u64 fmt_g).

Definition sample_timestamp (m : Metric float) (tick : Z) : Z :=
  match TimestampMs m with Some t => t | None => tick end.

(** C3: a histogram sample with buckets [B] yields exactly |B| + 2 records:
    record [i] is [<name>_bucket] for bucket [i] with the sample's labels
    plus [le = %g of its upper bound], type counter and value float64 of its
    cumulative count; then [<name>_count] and [<name>_sum], counters over
    the sample's own labels with the sample count and sum. *)
Theorem histogram_emits_buckets_count_sum
  (name : string) (m : Metric float) (h : Histogram float) (tick : Z) :
  Histogram_ m = Some h ->
  exists out,
    processMetric name "HISTOGRAM" (Some m) tick = Ok out /\
    length out = (length (H_Bucket h) + 2)%nat /\
    (forall i b, nth_error (H_Bucket h) i = Some b ->
       nth_error out i =
         Some (mkMWV float (name ++ "_bucket")
                 (<["le" := fmt_g (UpperBound b)]> (labels_of (Label m)))
                 (float_of_u64 (CumulativeCount b))
                 (sample_timestamp m tick) "counter")) /\
    nth_error out (length (H_Bucket h)) =
      Some (mkMWV float (name ++ "_count") (labels_of (Label m))
              (float_of_u64 (H_SampleCount h)) (sample_timestamp m tick) "counter") /\
    nth_error out (S (length (H_Bucket h))) =
      Some (mkMWV float (name ++ "_sum") (labels_of (Label m))
              (H_SampleSum h) (sample_timestamp m tick) "counter").
Proof.
  intros Hh.
  exists (histogram_records float float_of_u64 fmt_g name (labels_of (Label m)) h
            (sample_timestamp m tick)).
  split.
  { unfold Aggregate.processMetric, sample_timestamp. simpl. rewrite Hh. reflexivity. }
  unfold histogram_records.
  rewrite length_app, length_map. split; [simpl; lia|]. split; [|split].
  - intros i b Hb. rewrite nth_error_app1.
    + rewrite nth_error_map, Hb. reflexivity.
    + rewrite length_map. apply nth_error_Some. congruence.
  - rewrite nth_error_app2; rewrite length_map; [|lia].
    rewrite Nat.sub_diag. reflexivity.
  - rewrite nth_error_app2; rewrite length_map; [|lia].
    replace (S (length (H_Bucket h)) - length (H_Bucket h))%nat with 1%nat by lia.
    reflexivity.
Qed.

Lemma processMetric_timestamps (name type_ : string) (mo : option (Metric float))
  (tick : Z) (vs : list (MetricWithValue float)) :
  processMetric name type_ mo tick = Ok vs ->
  exists m, mo = Some m /\
    forall r, In r vs -> MTimestamp float r = sample_timestamp m tick.
Proof.
  destruct mo as [m|]; simpl; [|discriminate]. intros H. exists m. split; [reflexivity|].
  unfold sample_timestamp.
  repeat match type of H with
         | context [if ?b then _ else _] => destruct b
         end;
  try discriminate H; injection H as <-;
  repeat match goal with
         | |- context [match ?o with Some _ => _ | None => _ end] =>
             destruct o
         end;
  unfold histogram_records, summary_records;
  intros r Hr; simpl in Hr;
  repeat (rewrite in_app_iff in Hr || rewrite in_map_iff in Hr);
  simpl in Hr;
  repeat match goal with
         | H : _ \/ _ |- _ => destruct H
         | H : exists _, _ |- _ => destruct H
         | H : _ /\ _ |- _ => destruct H
         | H : False |- _ => contradiction
         end; subst; reflexivity.
Qed.

Lemma process_metrics_timestamps (name type_ : string) (ms : list (option (Metric float)))
  (tick : Z) (vs : list (MetricWithValue float)) :
  process_metrics name type_ ms tick = Ok vs ->
  forall r, In r vs -> exists m, In (Some m) ms /\ MTimestamp float r = sample_timestamp m tick.
Proof.
  revert vs. induction ms as [|mo rest IH]; intros vs H r Hr; simpl in H.
  - injection H as <-. contradiction.
  - destruct (processMetric name type_ mo tick) as [v1|e] eqn:H1; [|discriminate H].
    destruct (process_metrics name type_ rest tick) as [v2|e] eqn:H2; [|discriminate H].
    injection H as <-. apply in_app_or in Hr as [Hr|Hr].
    + destruct (processMetric_timestamps _ _ _ _ _ H1) as (m & -> & Hm).
      exists m. split; [left; reflexivity|apply Hm; exact Hr].
    + destruct (IH v2 eq_refl r Hr) as (m & Hin & Hm). exists m. split; [right; exact Hin|exact Hm].
Qed.

Lemma process_families_timestamps (fams : list (option (MetricFamily float)))
  (tick : Z) (vs : list (MetricWithValue float)) :
  process_families fams tick = Ok vs ->
  forall r, In r vs -> exists f m, In (Some f) fams /\ In (Some m) (Metric_ f) /\
    MTimestamp float r = sample_timestamp m tick.
Proof.
  revert vs. induction fams as [|fo rest IH]; intros vs H r Hr; simpl in H.
  - injection H as <-. contradiction.
  - destruct (processFamily float float_of_u64 fmt_g fo tick) as [v1|e] eqn:H1;
      [|discriminate H].
    destruct (process_families rest tick) as [v2|e] eqn:H2; [|discriminate H].
    injection H as <-. apply in_app_or in Hr as [Hr|Hr].
    + destruct fo as [f|]; [|discriminate H1]. simpl in H1.
      destruct (process_metrics_timestamps _ _ _ _ _ H1 r Hr) as (m & Hin & Hm).
      exists f, m. split; [left; reflexivity|split; assumption].
    + destruct (IH v2 eq_refl r Hr) as (f & m & Hf & Hin & Hm).
      exists f, m. split; [right; exact Hf|split; assumption].
Qed.

(** The records of one sample: the sample, and what processMetric emits
    for it, each record carrying the sample's own timestamp when it has one
    and [tick] otherwise. *)
Definition sample_block_ok (familyName familyType : string) (tick : Z)
  (b : Metric float * list (MetricWithValue float)) : Prop :=
  processMetric familyName familyType (Some (fst b)) tick = Ok (snd b) /\
  Forall (fun r => MTimestamp float r =
                   match TimestampMs (fst b) with Some t => t | None => tick end) (snd b).

Lemma process_metrics_blocks (name type_ : string) (ms : list (option (Metric float)))
  (tick : Z) (vs : list (MetricWithValue float)) :
  process_metrics name type_ ms tick = Ok vs ->
  exists bs, ms = map (fun b => Some (fst b)) bs /\
    Forall (sample_block_ok name type_ tick) bs /\ vs = concat (map snd bs).
Proof.
  revert vs. induction ms as [|mo rest IH]; intros vs H; simpl in H.
  - injection H as <-. exists []. repeat split; constructor.
  - destruct (processMetric name type_ mo tick) as [v1|e] eqn:H1; [|discriminate H].
    destruct (process_metrics name type_ rest tick) as [v2|e] eqn:H2; [|discriminate H].
    injection H as <-.
    destruct (processMetric_timestamps _ _ _ _ _ H1) as (m & -> & Hm).
    destruct (IH v2 eq_refl) as (bs & Hms & Hok & Hvs).
    exists ((m, v1) :: bs). split; [rewrite Hms; reflexivity|]. split.
    + constructor; [|exact Hok]. split; [exact H1|].
      apply List.Forall_forall. intros r Hr. exact (Hm r Hr).
    + rewrite Hvs. reflexivity.
Qed.

Lemma process_families_blocks (fams : list (option (MetricFamily float))) (tick : Z)
  (vs : list (MetricWithValue float)) :
  process_families fams tick = Ok vs ->
  exists fbs, fams = map (fun fb => Some (fst fb)) fbs /\
    vs = concat (map (fun fb => concat (map snd (snd fb))) fbs) /\
    Forall (fun fb => Metric_ (fst fb) = map (fun b => Some (fst b)) (snd fb) /\
                      Forall (sample_block_ok (Name (fst fb)) (Type_ (fst fb)) tick) (snd fb))
      fbs.
Proof.
  revert vs. induction fams as [|fo rest IH]; intros vs H; simpl in H.
  - injection H as <-. exists []. repeat split; constructor.
  - destruct (processFamily float float_of_u64 fmt_g fo tick) as [v1|e] eqn:H1;
      [|discriminate H].
    destruct (process_families rest tick) as [v2|e] eqn:H2; [|discriminate H].
    injection H as <-.
    destruct fo as [f|]; [|discriminate H1]. simpl in H1.
    destruct (process_metrics_blocks _ _ _ _ _ H1) as (bs & Hms & Hok & Hv1).
    destruct (IH v2 eq_refl) as (fbs & Hf & Hv2 & Hall).
    exists ((f, bs) :: fbs). split; [rewrite Hf; reflexivity|]. split.
    + rewrite Hv1, Hv2. reflexivity.
    + constructor; [split; assumption|exact Hall].
Qed.

(** C7: Aggregate's output is, family by family and sample by sample in
    input order, the records processMetric emits for each sample, and the
    records of a sample carry that sample's own TimestampMs when it has one
    and otherwise the tick [tick] read once for the whole call; so all
    records of untimed samples in one call share that tick. *)
Theorem Aggregate_timestamps (tick : Z) (fams : list (option (MetricFamily float)))
  (out : list (MetricWithValue float)) :
  Aggregate tick fams = Ok out ->
  exists fbs : list (MetricFamily float * list (Metric float * list (MetricWithValue float))),
    fams = map (fun fb => Some (fst fb)) fbs /\
    out = concat (map (fun fb => concat (map snd (snd fb))) fbs) /\
    Forall (fun fb =>
      Metric_ (fst fb) = map (fun b => Some (fst b)) (snd fb) /\
      Forall (fun b =>
        processMetric (Name (fst fb)) (Type_ (fst fb)) (Some (fst b)) tick = Ok (snd b) /\
        Forall (fun r => MTimestamp float r =
                         match TimestampMs (fst b) with Some t => t | None => tick end)
          (snd b)) (snd fb)) fbs.
Proof.
  intros H. unfold Aggregate.Aggregate in H. destruct fams as [|f0 fs].
  - injection H as <-. exists []. repeat split; constructor.
  - exact (process_families_blocks _ _ _ H).
Qed.


End Proofs.

End AggregateProofs.

Module DecoratorProofs.

Import Decorator.

Section Proofs.

Context {payload : Type}.

Implicit Types (h : heap payload) (l : loc).

(** The label pointers [ls] are non-nil and read as the pairs [pairs]. *)
Definition reads_as h (ls : list (option loc)) (pairs : list (string * string)) : Prop :=
  Forall2 (fun lo x => exists l, lo = Some l /\ read_label h l = Some x) ls pairs.

Definition label_ok h (lo : option loc) : Prop :=
  exists l n v, lo = Some l /\ cells h !! l = Some (OLabel n v).

Definition metric_ok h (ml : loc) : Prop :=
  exists ls p ts, cells h !! ml = Some (OMetric ls p ts) /\ Forall (label_ok h) ls.

Definition family_ok h (fl : loc) : Prop :=
  exists n hp t ms, cells h !! fl = Some (OFamily n hp t ms) /\
    Forall (fun mo => exists ml, mo = Some ml /\ metric_ok h ml) ms.

Lemma preserves_refl h : preserves h h.
Proof. intros l o H. exact H. Qed.

Lemma preserves_trans h1 h2 h3 :
  preserves h1 h2 -> preserves h2 h3 -> preserves h1 h3.
Proof. intros H12 H23 l o H. apply H23, H12, H. Qed.

Lemma alloc_spec h (o : obj payload) :
  wf h ->
  alloc o h = Normal (Ok (next h, mkHeap (<[next h := o]> (cells h)) (S (next h)))) /\
  wf (mkHeap (<[next h := o]> (cells h)) (S (next h))) /\
  preserves h (mkHeap (<[next h := o]> (cells h)) (S (next h))) /\
  cells (mkHeap (<[next h := o]> (cells h)) (S (next h))) !! next h = Some o /\
  cells h !! next h = None.
Proof.
  intros Hwf. split; [reflexivity|].
  assert (Hfree : cells h !! next h = None).
  { destruct (cells h !! next h) eqn:E; [|reflexivity].
    assert (next h < next h) by (apply (Hwf (next h)); eexists; exact E). lia. }
  split; [|split; [|split]]; cbn [cells next].
  - intros l Hl. cbn in *. destruct (decide (l = next h)) as [->|Hne]; [lia|].
    rewrite lookup_insert_ne in Hl by congruence. apply Hwf in Hl. lia.
  - intros l o' Hl. cbn. rewrite lookup_insert_ne; [exact Hl|].
    intros Heq. subst l. congruence.
  - apply lookup_insert_eq.
  - exact Hfree.
Qed.

Lemma bind_ok {A B} (m : M payload A) (k : A -> M payload B) h a h1 :
  m h = Normal (Ok (a, h1)) -> bind m k h = k a h1.
Proof. intros H. unfold bind. rewrite H. reflexivity. Qed.

Lemma bind_err {A B} (m : M payload A) (k : A -> M payload B) h e :
  m h = Normal (Err e) -> bind m k h = Normal (Err e).
Proof. intros H. unfold bind. rewrite H. reflexivity. Qed.

Lemma bind_panic {A B} (m : M payload A) (k : A -> M payload B) h msg :
  m h = Panic msg -> bind m k h = Panic msg.
Proof. intros H. unfold bind. rewrite H. reflexivity. Qed.

Lemma bind_ret_r {A} (m : M payload A) h : bind m (fun x => ret x) h = m h.
Proof. unfold bind. destruct (m h) as [[[a h']|e]|msg]; reflexivity. Qed.

Lemma wrap_ok {A} (f : string -> string) (m : M payload A) h a h1 :
  m h = Normal (Ok (a, h1)) -> wrap_err f m h = Normal (Ok (a, h1)).
Proof. intros H. unfold wrap_err. rewrite H. reflexivity. Qed.

Lemma wrap_err_err {A} (f : string -> string) (m : M payload A) h e :
  m h = Normal (Err e) -> wrap_err f m h = Normal (Err (f e)).
Proof. intros H. unfold wrap_err. rewrite H. reflexivity. Qed.

Lemma wrap_panic {A} (f : string -> string) (m : M payload A) h msg :
  m h = Panic msg -> wrap_err f m h = Panic msg.
Proof. intros H. unfold wrap_err. rewrite H. reflexivity. Qed.

Lemma read_ok h l (o : obj payload) :
  cells h !! l = Some o -> read l h = Normal (Ok (o, h)).
Proof. intros H. unfold read. rewrite H. reflexivity. Qed.

(** mapM over [pre ++ rest] runs [pre], then [rest]. *)
Lemma mapM_app_ok {A B} (f : A -> M payload B) (pre rest : list A) h ys h1 :
  mapM f pre h = Normal (Ok (ys, h1)) ->
  mapM f (pre ++ rest) h = bind (mapM f rest) (fun zs => ret (ys ++ zs)%list) h1.
Proof.
  revert h ys. induction pre as [|x pre IH]; intros h ys H.
  - cbn in H. injection H as <- <-. cbn [app]. rewrite bind_ret_r. reflexivity.
  - cbn [mapM] in H. unfold bind at 1 in H.
    destruct (f x h) as [[[y h2]|e]|msg] eqn:Ex; try discriminate H.
    unfold bind in H.
    destruct (mapM f pre h2) as [[[ys' h3]|e]|msg] eqn:Ep; try discriminate H.
    cbn in H. injection H as <- <-.
    cbn [app mapM]. rewrite (bind_ok _ _ _ _ _ Ex).
    unfold bind at 1. rewrite (IH h2 ys' Ep).
    unfold bind. destruct (mapM f rest h3) as [[[zs h4]|e]|msg]; reflexivity.
Qed.

Lemma mapM_app_err {A B} (f : A -> M payload B) (pre : list A) x post h ys h1 e :
  mapM f pre h = Normal (Ok (ys, h1)) -> f x h1 = Normal (Err e) ->
  mapM f (pre ++ x :: post) h = Normal (Err e).
Proof.
  intros Hp Hx. rewrite (mapM_app_ok _ _ _ _ _ _ Hp).
  apply bind_err. cbn [mapM]. apply bind_err, Hx.
Qed.

Lemma mapM_app_panic {A B} (f : A -> M payload B) (pre : list A) x post h ys h1 msg :
  mapM f pre h = Normal (Ok (ys, h1)) -> f x h1 = Panic msg ->
  mapM f (pre ++ x :: post) h = Panic msg.
Proof.
  intros Hp Hx. rewrite (mapM_app_ok _ _ _ _ _ _ Hp).
  apply bind_panic. cbn [mapM]. apply bind_panic, Hx.
Qed.

Lemma reads_as_preserved h h' ls pairs :
  preserves h h' -> reads_as h ls pairs -> reads_as h' ls pairs.
Proof.
  intros Hp Hr. unfold reads_as in *. eapply Forall2_impl; [exact Hr|].
  intros lo x (l & -> & Hl). exists l. split; [reflexivity|].
  unfold read_label in *. destruct (cells h !! l) as [o|] eqn:E; [|discriminate].
  rewrite (Hp l o E). exact Hl.
Qed.

Lemma reads_as_back h h' ls pairs :
  preserves h h' -> Forall (label_ok h) ls -> reads_as h' ls pairs -> reads_as h ls pairs.
Proof.
  intros Hp Hok Hr. unfold reads_as in *. revert pairs Hr.
  induction Hok as [|lo r (l & n & v & -> & Hl) _ IH]; intros pairs Hr;
    inversion Hr as [|? x ? pairs' (l' & Heq & Hx) Hr']; subst;
    constructor; [|apply IH; assumption].
  injection Heq as <-. exists l. split; [reflexivity|].
  unfold read_label in *. rewrite (Hp _ _ Hl) in Hx. rewrite Hl. exact Hx.
Qed.

Lemma label_ok_preserved h h' lo : preserves h h' -> label_ok h lo -> label_ok h' lo.
Proof. intros Hp (l & n & v & -> & H). exists l, n, v. split; [reflexivity|]. apply Hp, H. Qed.

Lemma metric_ok_preserved h h' ml : preserves h h' -> metric_ok h ml -> metric_ok h' ml.
Proof.
  intros Hp (ls & p & ts & H & Hls). exists ls, p, ts. split; [apply Hp, H|].
  eapply Forall_impl; [exact Hls|]. intros l. apply label_ok_preserved, Hp.
Qed.

Lemma family_ok_preserved h h' fl : preserves h h' -> family_ok h fl -> family_ok h' fl.
Proof.
  intros Hp (n & hp & t & ms & H & Hms). exists n, hp, t, ms. split; [apply Hp, H|].
  eapply Forall_impl; [exact Hms|]. intros mo (ml & -> & Hm).
  exists ml. split; [reflexivity|]. eapply metric_ok_preserved; eassumption.
Qed.

Lemma metrics_ok_preserved h h' (ms : list (option loc)) :
  preserves h h' ->
  Forall (fun mo => exists ml, mo = Some ml /\ metric_ok h ml) ms ->
  Forall (fun mo => exists ml, mo = Some ml /\ metric_ok h' ml) ms.
Proof.
  intros Hp Hms. eapply Forall_impl; [exact Hms|]. intros mo (ml & -> & Hm).
  exists ml. split; [reflexivity|]. eapply metric_ok_preserved; eassumption.
Qed.

Lemma copy_labels_spec (ls : list (option loc)) h :
  wf h -> Forall (label_ok h) ls ->
  exists ls' h' pairs,
    mapM copy_label ls h = Normal (Ok (ls', h')) /\ wf h' /\ preserves h h' /\
    reads_as h ls pairs /\ reads_as h' (map Some ls') pairs.
Proof.
  revert h. induction ls as [|lo r IH]; intros h Hwf Hok.
  - exists [], h, []. repeat split; try constructor; auto using preserves_refl.
  - inversion Hok as [|? ? (l & n & v & -> & Hl) Hr]; subst.
    destruct (alloc_spec h (OLabel n v) Hwf) as (Ha & Hwf1 & Hp1 & Hnew & _).
    set (h1 := mkHeap (<[next h := OLabel n v]> (cells h)) (S (next h))) in *.
    assert (Hr1 : Forall (label_ok h1) r).
    { eapply Forall_impl; [exact Hr|]. intros x. apply label_ok_preserved, Hp1. }
    destruct (IH h1 Hwf1 Hr1) as (ls' & h' & pairs & Hm & Hwf' & Hp' & Hin & Hout).
    exists (next h :: ls'), h', ((n, v) :: pairs).
    split; [|split; [exact Hwf'|split; [|split]]].
    + assert (Hc : copy_label (Some l) h = Normal (Ok (next h, h1))).
      { unfold copy_label. rewrite (bind_ok _ _ _ _ _ (read_ok _ _ _ Hl)).
        cbv beta iota. exact Ha. }
      cbn [mapM]. rewrite (bind_ok _ _ _ _ _ Hc), (bind_ok _ _ _ _ _ Hm).
      reflexivity.
    + eapply preserves_trans; eassumption.
    + constructor; [exists l; split; [reflexivity|]; unfold read_label; rewrite Hl; reflexivity|].
      exact (reads_as_back h h1 r pairs Hp1 Hr Hin).
    + constructor; [|exact Hout].
      exists (next h). split; [reflexivity|].
      unfold read_label. rewrite (Hp' _ _ Hnew). reflexivity.
Qed.

Lemma alloc_labels_spec (kvs : list (string * string)) h :
  wf h ->
  exists ls' h',
    mapM (fun '(k, v) => alloc (OLabel k v)) kvs h = Normal (Ok (ls', h')) /\
    wf h' /\ preserves h h' /\ reads_as h' (map Some ls') kvs.
Proof.
  revert h. induction kvs as [|[k v] r IH]; intros h Hwf.
  - exists [], h. repeat split; try constructor; auto using preserves_refl.
  - destruct (alloc_spec h (OLabel k v) Hwf) as (Ha & Hwf1 & Hp1 & Hnew & _).
    set (h1 := mkHeap (<[next h := OLabel k v]> (cells h)) (S (next h))) in *.
    destruct (IH h1 Hwf1) as (ls' & h' & Hm & Hwf' & Hp' & Hout).
    exists (next h :: ls'), h'. split; [|split; [exact Hwf'|split]].
    + cbn [mapM]. rewrite (bind_ok _ _ _ _ _ Ha), (bind_ok _ _ _ _ _ Hm). reflexivity.
    + eapply preserves_trans; eassumption.
    + constructor; [|exact Hout]. exists (next h). split; [reflexivity|].
      unfold read_label. rewrite (Hp' _ _ Hnew). reflexivity.
Qed.

Section WithLabels.

Variable vmID : string.
Variable labels : gmap string string.
Variable iter : gmap string string -> heap payload -> list (string * string).
(** Every [range] over md.labels visits each entry exactly once. *)
Hypothesis iter_perm : forall h, iter labels h ≡ₚ map_to_list labels.

(** Output metric [ml'] decorates input metric [ml]: same payload and
    timestamp, labels = the input labels, then vm_id, then one pair per
    entry of the static labels, in some order. *)
Definition metric_corr h h' (ml ml' : loc) : Prop :=
  exists ls p ts ls' pairs custom,
    cells h !! ml = Some (OMetric ls p ts) /\
    cells h' !! ml' = Some (OMetric ls' p ts) /\
    reads_as h ls pairs /\
    custom ≡ₚ map_to_list labels /\
    reads_as h' ls' (pairs ++ [("vm_id", vmID)] ++ custom).

Lemma metric_corr_preserved h h' h'' ml ml' :
  preserves h' h'' -> metric_corr h h' ml ml' -> metric_corr h h'' ml ml'.
Proof.
  intros Hp (ls & p & ts & ls' & pairs & custom & H1 & H2 & H3 & H4 & H5).
  exists ls, p, ts, ls', pairs, custom. repeat split; try assumption.
  - apply Hp, H2.
  - eapply reads_as_preserved; eassumption.
Qed.

Lemma fresh_after h h' : preserves h h' -> cells h' !! next h' = None ->
  cells h !! next h' = None.
Proof.
  intros Hp Hn. destruct (cells h !! next h') as [o|] eqn:E; [|reflexivity].
  rewrite (Hp _ _ E) in Hn. discriminate Hn.
Qed.

Lemma decorateMetric_spec h (ml : loc) :
  wf h -> metric_ok h ml ->
  exists ml' h',
    decorateMetric vmID labels iter (Some ml) h = Normal (Ok (ml', h')) /\
    wf h' /\ preserves h h' /\ cells h !! ml' = None /\ metric_corr h h' ml ml'.
Proof.
  intros Hwf (ls & p & ts & Hl & Hls).
  destruct (copy_labels_spec ls h Hwf Hls) as (ls1 & h1 & pairs & Hc & Hwf1 & Hp1 & Hin & Hout1).
  destruct (alloc_spec h1 (OLabel "vm_id" vmID) Hwf1) as (Ha2 & Hwf2 & Hp2 & Hnew2 & _).
  set (h2 := mkHeap (<[next h1 := OLabel "vm_id" vmID]> (cells h1)) (S (next h1))) in *.
  destruct (alloc_labels_spec (iter labels h2) h2 Hwf2) as (ls3 & h3 & Hm3 & Hwf3 & Hp3 & Hout3).
  destruct (alloc_spec h3 (OMetric (map Some (ls1 ++ [next h1] ++ ls3)) p ts) Hwf3)
    as (Ha4 & Hwf4 & Hp4 & Hnew4 & Hfree4).
  set (h4 := mkHeap (<[next h3 := OMetric (map Some (ls1 ++ [next h1] ++ ls3)) p ts]>
                      (cells h3)) (S (next h3))) in *.
  assert (Hp13 : preserves h1 h3) by (eapply preserves_trans; eassumption).
  assert (Hp03 : preserves h h3) by (eapply preserves_trans; eassumption).
  exists (next h3), h4. split; [|split; [exact Hwf4|split; [|split]]].
  - unfold decorateMetric. rewrite (bind_ok _ _ _ _ _ (read_ok _ _ _ Hl)).
    cbv beta iota.
    rewrite (bind_ok _ _ _ _ _ Hc), (bind_ok _ _ _ _ _ Ha2).
    rewrite (bind_ok (range_labels labels iter) _ h2 (iter labels h2) h2 eq_refl).
    rewrite (bind_ok _ _ _ _ _ Hm3).
    exact Ha4.
  - eapply preserves_trans; eassumption.
  - exact (fresh_after h h3 Hp03 Hfree4).
  - exists ls, p, ts, (map Some (ls1 ++ [next h1] ++ ls3)), pairs, (iter labels h2).
    split; [exact Hl|]. split; [exact Hnew4|]. split; [exact Hin|].
    split; [apply iter_perm|].
    rewrite !map_app. apply Forall2_app; [|apply Forall2_app].
    + eapply reads_as_preserved; [|exact Hout1]. eapply preserves_trans; eassumption.
    + constructor; [|constructor]. exists (next h1). split; [reflexivity|].
      unfold read_label. rewrite (Hp4 _ _ (Hp3 _ _ Hnew2)). reflexivity.
    + eapply reads_as_preserved; eassumption.
Qed.

Lemma none_back h h1 l : preserves h h1 -> cells h1 !! l = None -> cells h !! l = None.
Proof.
  intros Hp Hn. destruct (cells h !! l) as [o|] eqn:E; [|reflexivity].
  rewrite (Hp _ _ E) in Hn. discriminate Hn.
Qed.

Lemma metric_corr_back h h1 h' ml ml' :
  preserves h h1 -> metric_ok h ml -> metric_corr h1 h' ml ml' -> metric_corr h h' ml ml'.
Proof.
  intros Hp (ls0 & p0 & ts0 & H0 & Hok) (ls & p & ts & ls' & pairs & custom & H1 & H2 & H3 & H4 & H5).
  rewrite (Hp _ _ H0) in H1. injection H1 as <- <- <-.
  exists ls0, p0, ts0, ls', pairs, custom. repeat split; try assumption.
  eapply reads_as_back; eassumption.
Qed.

Definition metric_out h h' (mo : option loc) (ml' : loc) : Prop :=
  exists ml, mo = Some ml /\ cells h !! ml' = None /\ metric_corr h h' ml ml'.

Lemma metric_out_back h h1 h' (r : list (option loc)) (ms' : list loc) :
  preserves h h1 -> Forall (fun mo => exists ml, mo = Some ml /\ metric_ok h ml) r ->
  Forall2 (metric_out h1 h') r ms' -> Forall2 (metric_out h h') r ms'.
Proof.
  intros Hp Hr Hf. induction Hf as [|mo ml' r' ms'' Hx _ IH]; [constructor|].
  inversion Hr as [|? ? (x & Hxe & Hmx) Hr']; subst.
  constructor; [|apply IH; exact Hr'].
  destruct Hx as (ml & Heq & Hn & Hc). injection Heq as <-.
  exists x. split; [reflexivity|]. split; [eapply none_back; eassumption|].
  eapply metric_corr_back; eassumption.
Qed.

Lemma decorate_metrics_spec (ms : list (option loc)) h :
  wf h -> Forall (fun mo => exists ml, mo = Some ml /\ metric_ok h ml) ms ->
  exists ms' h',
    mapM (fun m => decorateMetric vmID labels iter m) ms h = Normal (Ok (ms', h')) /\
    wf h' /\ preserves h h' /\ Forall2 (metric_out h h') ms ms'.
Proof.
  revert h. induction ms as [|mo r IH]; intros h Hwf Hok.
  - exists [], h. repeat split; try constructor; auto using preserves_refl.
  - inversion Hok as [|? ? (ml & -> & Hm) Hr]; subst.
    destruct (decorateMetric_spec h ml Hwf Hm) as (ml' & h1 & Hd & Hwf1 & Hp1 & Hfr & Hc).
    destruct (IH h1 Hwf1 (metrics_ok_preserved _ _ _ Hp1 Hr))
      as (ms' & h' & Hms & Hwf' & Hp' & Hout).
    exists (ml' :: ms'), h'. split; [|split; [exact Hwf'|split]].
    + cbn [mapM]. rewrite (bind_ok _ _ _ _ _ Hd), (bind_ok _ _ _ _ _ Hms). reflexivity.
    + eapply preserves_trans; eassumption.
    + constructor.
      * exists ml. split; [reflexivity|]. split; [exact Hfr|].
        eapply metric_corr_preserved; eassumption.
      * eapply metric_out_back; eassumption.
Qed.

(** Output family [fl'] decorates input family [fl]: same name, help and
    type, one decorated metric per input metric, in order. *)
Definition family_corr h h' (fl fl' : loc) : Prop :=
  exists n hp t ms ms',
    cells h !! fl = Some (OFamily n hp t ms) /\
    cells h' !! fl' = Some (OFamily n hp t (map Some ms')) /\
    Forall2 (metric_out h h') ms ms'.

Definition family_out h h' (fl : loc) (fo' : option loc) : Prop :=
  exists fl', fo' = Some fl' /\ cells h !! fl' = None /\ family_corr h h' fl fl'.

Lemma metric_out_preserved h h' h'' mo ml' :
  preserves h' h'' -> metric_out h h' mo ml' -> metric_out h h'' mo ml'.
Proof.
  intros Hp (ml & -> & Hn & Hc). exists ml. split; [reflexivity|]. split; [exact Hn|].
  eapply metric_corr_preserved; eassumption.
Qed.

Lemma family_out_preserved h h' h'' fl fo' :
  preserves h' h'' -> family_out h h' fl fo' -> family_out h h'' fl fo'.
Proof.
  intros Hp (fl' & -> & Hn & n & hp & t & ms & ms' & H1 & H2 & H3).
  exists fl'. split; [reflexivity|]. split; [exact Hn|].
  exists n, hp, t, ms, ms'. split; [exact H1|]. split; [apply Hp, H2|].
  eapply Forall2_impl; [exact H3|]. intros mo ml'. apply metric_out_preserved, Hp.
Qed.

Lemma decorateFamily_spec h (fl : loc) :
  wf h -> family_ok h fl ->
  exists fl' h',
    decorateFamily vmID labels iter (Some fl) h = Normal (Ok (fl', h')) /\
    wf h' /\ preserves h h' /\ family_out h h' fl (Some fl').
Proof.
  intros Hwf (n & hp & t & ms & Hf & Hms).
  destruct (decorate_metrics_spec ms h Hwf Hms) as (ms' & h1 & Hd & Hwf1 & Hp1 & Hout).
  destruct (alloc_spec h1 (OFamily n hp t (map Some ms')) Hwf1)
    as (Ha & Hwf2 & Hp2 & Hnew & Hfree).
  exists (next h1), (mkHeap (<[next h1 := OFamily n hp t (map Some ms')]> (cells h1))
                            (S (next h1))).
  split; [|split; [exact Hwf2|split]].
  - unfold decorateFamily. rewrite (bind_ok _ _ _ _ _ (read_ok _ _ _ Hf)).
    cbv beta iota. rewrite (bind_ok _ _ _ _ _ (wrap_ok _ _ _ _ _ Hd)). exact Ha.
  - eapply preserves_trans; eassumption.
  - exists (next h1). split; [reflexivity|]. split; [eapply none_back; eassumption|].
    exists n, hp, t, ms, ms'. split; [exact Hf|]. split; [exact Hnew|].
    eapply Forall2_impl; [exact Hout|]. intros mo ml'. apply metric_out_preserved, Hp2.
Qed.

Lemma family_out_back h h1 h' (r : list loc) (outs : list (option loc)) :
  preserves h h1 -> Forall (family_ok h) r ->
  Forall2 (family_out h1 h') r outs -> Forall2 (family_out h h') r outs.
Proof.
  intros Hp Hr Hf. induction Hf as [|x y r' ys' Hxy _ IHo]; [constructor|].
  inversion Hr as [|? ? Hfx Hr']; subst. constructor; [|apply IHo; exact Hr'].
  destruct Hxy as (fl2 & Heq & Hn & n & hp & t & ms & ms' & H1 & H2 & H3).
  destruct Hfx as (n0 & hp0 & t0 & ms0 & H0 & Hms0).
  rewrite (Hp _ _ H0) in H1. injection H1 as <- <- <- <-.
  exists fl2. split; [exact Heq|]. split; [eapply none_back; eassumption|].
  exists n0, hp0, t0, ms0, ms'. split; [exact H0|]. split; [exact H2|].
  eapply metric_out_back; eassumption.
Qed.

Lemma decorate_families_spec (fams : list loc) h :
  wf h -> Forall (family_ok h) fams ->
  exists fs h',
    mapM (decorate_one vmID labels iter) (map Some fams) h = Normal (Ok (fs, h')) /\
    wf h' /\ preserves h h' /\ Forall2 (family_out h h') fams (map Some fs).
Proof.
  revert h. induction fams as [|fl r IH]; intros h Hwf Hok.
  - exists [], h. repeat split; try constructor; auto using preserves_refl.
  - inversion Hok as [|? ? Hf Hr]; subst.
    destruct (decorateFamily_spec h fl Hwf Hf) as (fl' & h1 & Hd & Hwf1 & Hp1 & Hout1).
    assert (Hr1 : Forall (family_ok h1) r).
    { eapply Forall_impl; [exact Hr|]. intros x. apply family_ok_preserved, Hp1. }
    destruct (IH h1 Hwf1 Hr1) as (fs & h' & Hms & Hwf' & Hp' & Hout).
    exists (fl' :: fs), h'. split; [|split; [exact Hwf'|split]].
    + cbn [mapM map].
      assert (Hd' : decorate_one vmID labels iter (Some fl) h = Normal (Ok (fl', h1))).
      { unfold decorate_one. exact (wrap_ok _ _ _ _ _ Hd). }
      rewrite (bind_ok _ _ _ _ _ Hd'), (bind_ok _ _ _ _ _ Hms). reflexivity.
    + eapply preserves_trans; eassumption.
    + constructor; [eapply family_out_preserved; eassumption|].
      eapply family_out_back; eassumption.
Qed.

Lemma Decorate_nonempty (fams : list (option loc)) h :
  fams <> [] ->
  Decorate vmID labels iter fams h =
  bind (mapM (decorate_one vmID labels iter) fams) (fun fs => ret (map Some fs)) h.
Proof. intros Hne. destruct fams as [|f r]; [contradiction|reflexivity]. Qed.

Lemma app_cons_ne {A} (pre post : list A) (x : A) : (pre ++ x :: post)%list <> [].
Proof. destruct pre; discriminate. Qed.

(** The families before the one at issue are decorated without error, and
    the one at issue is read in a heap that keeps every cell of [h]. *)
Lemma decorate_prefix h (pre : list loc) :
  wf h -> Forall (family_ok h) pre ->
  exists fs h1, mapM (decorate_one vmID labels iter) (map Some pre) h = Normal (Ok (fs, h1)) /\
    wf h1 /\ preserves h h1.
Proof.
  intros Hwf Hok.
  destruct (decorate_families_spec pre h Hwf Hok) as (fs & h1 & Hm & Hwf1 & Hp1 & _).
  exists fs, h1. split; [exact Hm|]. split; assumption.
Qed.

Lemma decorate_metrics_prefix h (mpre : list (option loc)) :
  wf h -> Forall (fun mo => exists ml, mo = Some ml /\ metric_ok h ml) mpre ->
  exists ms' h2, mapM (fun m => decorateMetric vmID labels iter m) mpre h = Normal (Ok (ms', h2)) /\
    wf h2 /\ preserves h h2.
Proof.
  intros Hwf Hok.
  destruct (decorate_metrics_spec mpre h Hwf Hok) as (ms' & h2 & Hm & Hwf2 & Hp2 & _).
  exists ms', h2. split; [exact Hm|]. split; assumption.
Qed.

(** C5 (amended): Decorate on families, samples and label pairs that are
    all non-nil succeeds and returns one new family per input family, in
    order; each is a fresh object with the input's name, help and type and
    one fresh sample per input sample, in order, with the same payload and
    timestamp, whose labels are the input sample's label pairs unchanged,
    then vm_id bound to the identity, then one pair per entry of the static
    labels map, in whatever order the map range yields; every object
    reachable before the call is left unchanged.  A nil family makes it
    return the error "failed to decorate family : metric family is nil"; a
    nil sample in family [n] (after non-nil ones) the error "failed to
    decorate family n: failed to decorate metric: metric is nil"; a nil
    label pair (after non-nil ones) makes it panic with a nil pointer
    dereference. *)
Theorem Decorate_new_families h :
  wf h ->
  (forall fams : list loc, Forall (family_ok h) fams ->
   exists out h',
     Decorate vmID labels iter (map Some fams) h = Normal (Ok (out, h')) /\
     preserves h h' /\ length out = length fams /\
     Forall2 (family_out h h') fams out) /\
  (forall (pre : list loc) post, Forall (family_ok h) pre ->
   Decorate vmID labels iter (map Some pre ++ None :: post) h =
   Normal (Err "failed to decorate family : metric family is nil")) /\
  (forall (pre : list loc) fl n hp t mpre mpost post,
   Forall (family_ok h) pre ->
   cells h !! fl = Some (OFamily n hp t (mpre ++ None :: mpost)) ->
   Forall (fun mo => exists ml, mo = Some ml /\ metric_ok h ml) mpre ->
   Decorate vmID labels iter (map Some pre ++ Some fl :: post) h =
   Normal (Err ("failed to decorate family " ++ n ++
                ": failed to decorate metric: metric is nil"))) /\
  (forall (pre : list loc) fl n hp t mpre ml mpost post p ts lpre lpost,
   Forall (family_ok h) pre ->
   cells h !! fl = Some (OFamily n hp t (mpre ++ Some ml :: mpost)) ->
   Forall (fun mo => exists ml, mo = Some ml /\ metric_ok h ml) mpre ->
   cells h !! ml = Some (OMetric (lpre ++ None :: lpost) p ts) ->
   Forall (label_ok h) lpre ->
   Decorate vmID labels iter (map Some pre ++ Some fl :: post) h = Panic nil_deref).
Proof.
  intros Hwf. refine (conj _ (conj _ (conj _ _))).
  - intros fams Hok. destruct fams as [|fl r].
    + exists [], h. split; [reflexivity|]. split; [apply preserves_refl|].
      split; [reflexivity|constructor].
    + destruct (decorate_families_spec (fl :: r) h Hwf Hok) as (fs & h' & Hm & _ & Hp & Hout).
      exists (map Some fs), h'. split; [|split; [exact Hp|split; [|exact Hout]]].
      * unfold Decorate. cbn [map]. rewrite (bind_ok _ _ _ _ _ Hm). reflexivity.
      * symmetry. exact (Forall2_length _ _ _ Hout).
  - intros pre post Hpre.
    destruct (decorate_prefix h pre Hwf Hpre) as (fs & h1 & Hm & _ & _).
    rewrite Decorate_nonempty by apply app_cons_ne.
    apply bind_err. eapply mapM_app_err; [exact Hm|]. reflexivity.
  - intros pre fl n hp t mpre mpost post Hpre Hfl Hmpre.
    destruct (decorate_prefix h pre Hwf Hpre) as (fs & h1 & Hm & Hwf1 & Hp1).
    destruct (decorate_metrics_prefix h1 mpre Hwf1 (metrics_ok_preserved _ _ _ Hp1 Hmpre))
      as (ms' & h2 & Hm2 & _ & _).
    rewrite Decorate_nonempty by apply app_cons_ne.
    apply bind_err. eapply mapM_app_err; [exact Hm|].
    assert (Hms : mapM (fun m => decorateMetric vmID labels iter m)
                    (mpre ++ None :: mpost) h1 = Normal (Err "metric is nil")).
    { eapply mapM_app_err; [exact Hm2|]. reflexivity. }
    assert (Hf : decorateFamily vmID labels iter (Some fl) h1 =
                 Normal (Err ("failed to decorate metric: " ++ "metric is nil"))).
    { unfold decorateFamily.
      rewrite (bind_ok _ _ _ _ _ (read_ok _ _ _ (Hp1 _ _ Hfl))). cbv beta iota.
      apply bind_err. exact (wrap_err_err _ _ _ _ Hms). }
    unfold decorate_one. rewrite (wrap_err_err _ _ _ _ Hf).
    cbn [GetName]. rewrite (Hp1 _ _ Hfl). reflexivity.
  - intros pre fl n hp t mpre ml mpost post p ts lpre lpost Hpre Hfl Hmpre Hml Hlpre.
    destruct (decorate_prefix h pre Hwf Hpre) as (fs & h1 & Hm & Hwf1 & Hp1).
    destruct (decorate_metrics_prefix h1 mpre Hwf1 (metrics_ok_preserved _ _ _ Hp1 Hmpre))
      as (ms' & h2 & Hm2 & Hwf2 & Hp2).
    assert (Hp02 : preserves h h2) by (eapply preserves_trans; eassumption).
    assert (Hl2 : Forall (label_ok h2) lpre).
    { eapply Forall_impl; [exact Hlpre|]. intros lo. apply label_ok_preserved, Hp02. }
    destruct (copy_labels_spec lpre h2 Hwf2 Hl2) as (ls1 & h3 & pairs & Hc & _).
    rewrite Decorate_nonempty by apply app_cons_ne.
    apply bind_panic. eapply mapM_app_panic; [exact Hm|].
    unfold decorate_one. apply wrap_panic. unfold decorateFamily.
    rewrite (bind_ok _ _ _ _ _ (read_ok _ _ _ (Hp1 _ _ Hfl))). cbv beta iota.
    apply bind_panic. apply wrap_panic.
    eapply mapM_app_panic; [exact Hm2|].
    unfold decorateMetric. rewrite (bind_ok _ _ _ _ _ (read_ok _ _ _ (Hp02 _ _ Hml))).
    cbv beta iota. apply bind_panic.
    eapply mapM_app_panic; [exact Hc|]. reflexivity.
Qed.

End WithLabels.

End Proofs.

(** C5 (counterexample): a nil family in the input makes Decorate return
    an error instead of a decorated sequence. *)
Lemma Decorate_nil_family_error :
  @Decorate unit "vm-1" (<["env" := "prod"]> ∅) (fun m _ => map_to_list m)
    [None] (mkHeap ∅ 0)
  = Normal (Err "failed to decorate family : metric family is nil").
Proof. reflexivity. Qed.

End DecoratorProofs.

(* ===================================================================== *)
(** * Proofs about the rest of the agent                                 *)
(* ===================================================================== *)

Module AggregateMoreProofs.

Import Aggregate AggregateMore.

Section Proofs.

Variable float : Type.
Abbreviation MWV := (MetricWithValue float).

Lemma batch_loop_spec (l : list MWV) (bs : nat) : (0 < bs)%nat ->
  forall fuel i, (length l - i <= fuel)%nat ->
  let bl := batch_loop float fuel l bs i in
  concat bl = skipn i l /\
  Forall (fun b => b <> [] /\ (length b <= bs)%nat) bl /\
  (forall k b, nth_error bl (S k) <> None -> nth_error bl k = Some b ->
     length b = bs).
Proof.
  intros Hbs fuel. induction fuel as [|f IH]; intros i Hf; cbn [batch_loop].
  - rewrite skipn_all2 by lia. split; [reflexivity|]. split; [constructor|].
    intros k b H. destruct k; simpl in H; congruence.
  - destruct (Nat.ltb_spec i (length l)) as [Hi|Hi].
    + destruct (IH (i + bs) ltac:(lia)) as (Hc & Hall & Hfull).
      set (rest := batch_loop float f l bs (i + bs)) in *.
      assert (Hlen : length (firstn (Nat.min (i + bs) (length l) - i) (skipn i l))
                     = (Nat.min (i + bs) (length l) - i)%nat).
      { rewrite length_firstn, length_skipn. lia. }
      split; [|split].
      * cbn [concat]. rewrite Hc.
        destruct (Nat.leb_spec (i + bs) (length l)) as [Hle|Hgt].
        -- replace (Nat.min (i + bs) (length l) - i)%nat with bs by lia.
           rewrite (Nat.add_comm i bs), <- List.skipn_skipn.
           apply List.firstn_skipn.
        -- rewrite (skipn_all2 (n := (i + bs)%nat)) by lia.
           rewrite app_nil_r. apply firstn_all2.
           rewrite length_skipn. lia.
      * constructor; [|exact Hall]. split.
        -- intros He. apply (f_equal (@length MWV)) in He. rewrite Hlen in He.
           simpl in He. lia.
        -- rewrite Hlen. lia.
      * intros [|k] b Hn Hb.
        -- injection Hb as <-. rewrite Hlen.
           simpl in Hn. destruct rest as [|b' r'] eqn:Er; [contradiction|].
           destruct (Nat.leb_spec (i + bs) (length l)); [lia|].
           exfalso. clear Hfull Hall. subst rest.
           destruct f; cbn [batch_loop] in Er; [discriminate|].
           destruct (Nat.ltb_spec (i + bs) (length l)); [lia|discriminate].
        -- exact (Hfull k b Hn Hb).
    + rewrite skipn_all2 by lia. split; [reflexivity|]. split; [constructor|].
      intros k b H. destruct k; simpl in H; congruence.
Qed.

Lemma effective_batch_size_pos (batchSize : Z) : (0 < effective_batch_size batchSize)%Z.
Proof. unfold effective_batch_size. destruct (Z.leb_spec batchSize 0); lia. Qed.

Lemma BatchMetrics_shape (metrics : list MWV) (batchSize : Z) :
  let bs := Z.to_nat (effective_batch_size batchSize) in
  let batches := BatchMetrics float metrics batchSize in
  (metrics = [] -> batches = []) /\
  concat batches = metrics /\
  Forall (fun b => b <> [] /\ (length b <= bs)%nat) batches /\
  (forall k b, nth_error batches (S k) <> None -> nth_error batches k = Some b ->
     length b = bs).
Proof.
  intros bs batches. subst batches. unfold BatchMetrics.
  destruct metrics as [|m r] eqn:Em.
  - split; [reflexivity|]. split; [reflexivity|]. split; [constructor|].
    intros k b H; destruct k; simpl in H; congruence.
  - rewrite <- Em.
    assert (Hbs : (0 < bs)%nat).
    { subst bs. pose proof (effective_batch_size_pos batchSize). lia. }
    destruct (batch_loop_spec metrics bs Hbs (length metrics) 0 ltac:(lia))
      as (Hc & Hall & Hfull).
    split; [intros H; subst metrics; discriminate|].
    split; [exact Hc|]. split; [exact Hall|exact Hfull].
Qed.

(** BatchMetrics partitions its input: the batches, in order, concatenate
    to the input; each is non-empty and at most the batch size long (1000
    when the given size is not positive); every batch but the last is full.
    An empty input gives no batch. *)
Theorem BatchMetrics_partition (metrics : list MWV) (batchSize : Z) :
  let bs := Z.to_nat (effective_batch_size batchSize) in
  let batches := BatchMetrics float metrics batchSize in
  (metrics = [] -> batches = []) /\
  concat batches = metrics /\
  Forall (fun b => b <> [] /\ (length b <= bs)%nat) batches /\
  (forall k b, nth_error batches (S k) <> None -> nth_error batches k = Some b ->
     length b = bs).
Proof. exact (BatchMetrics_shape metrics batchSize). Qed.

Lemma prefix_spec (a b : string) :
  String.prefix a b = true <-> exists post, b = a ++ post.
Proof.
  revert b. induction a as [|c a IH]; intros b.
  - split; [intros _; exists b; reflexivity|intros _; destruct b; reflexivity].
  - destruct b as [|d b]; simpl.
    + split; [discriminate|intros [post H]; discriminate H].
    + destruct (Ascii.ascii_dec c d) as [<-|Hne].
      * rewrite IH. split; intros [post H]; exists post.
        -- rewrite H. reflexivity.
        -- injection H as H. exact H.
      * split; [discriminate|intros [post H]; injection H as H1 _; congruence].
Qed.

Lemma Contains_eq (s sub : string) :
  Contains s sub = String.prefix sub s ||
    match s with EmptyString => false | String _ s' => Contains s' sub end.
Proof. destruct s; reflexivity. Qed.

Lemma Contains_spec (s sub : string) :
  Contains s sub = true <-> exists pre post, s = pre ++ sub ++ post.
Proof.
  induction s as [|c s IH]; rewrite Contains_eq.
  - rewrite orb_false_r, prefix_spec. split.
    + intros [post H]. exists "", post. exact H.
    + intros [pre [post H]]. destruct pre; [exists post; exact H|discriminate].
  - rewrite orb_true_iff, prefix_spec, IH. split.
    + intros [[post H]|[pre [post H]]].
      * exists "", post. exact H.
      * exists (String c pre), post. rewrite H. reflexivity.
    + intros [pre [post H]]. destruct pre as [|d pre].
      * left. exists post. exact H.
      * right. injection H as <- H. exists pre, post. exact H.
Qed.

Lemma matches_any_existsb (name : string) (ps : list string) :
  matches_any name ps = existsb (Contains name) ps.
Proof.
  induction ps as [|p ps IH]; [reflexivity|]. simpl.
  destruct (Contains name p); [reflexivity|exact IH].
Qed.

Lemma filter_loop_filter (ms : list MWV) (ps : list string) :
  filter_loop float ms ps =
  List.filter (fun m => existsb (Contains (MName float m)) ps) ms.
Proof.
  induction ms as [|m ms IH]; [reflexivity|]. simpl.
  rewrite matches_any_existsb, IH. reflexivity.
Qed.

(** FilterMetricsByName returns its input when no pattern is given;
    otherwise it keeps, in their order, exactly the records whose name
    contains (as a substring) at least one of the patterns. *)
Theorem FilterMetricsByName_spec (metrics : list MWV) (patterns : list string) :
  FilterMetricsByName float metrics [] = metrics /\
  (patterns <> [] ->
   FilterMetricsByName float metrics patterns =
     List.filter (fun m => existsb (Contains (MName float m)) patterns) metrics /\
   forall m, In m (FilterMetricsByName float metrics patterns) <->
     In m metrics /\
     exists p, In p patterns /\ exists pre post, MName float m = pre ++ p ++ post).
Proof.
  split; [reflexivity|]. intros Hne.
  assert (E : FilterMetricsByName float metrics patterns =
              List.filter (fun m => existsb (Contains (MName float m)) patterns) metrics).
  { unfold FilterMetricsByName. destruct patterns; [congruence|].
    apply filter_loop_filter. }
  split; [exact E|]. intros m. rewrite E, filter_In, existsb_exists.
  split.
  - intros [Hin [p [Hp Hc]]]. split; [exact Hin|]. exists p. split; [exact Hp|].
    apply Contains_spec, Hc.
  - intros [Hin [p [Hp Hc]]]. split; [exact Hin|]. exists p. split; [exact Hp|].
    apply Contains_spec, Hc.
Qed.

(** How many records have type [t]. *)
Definition count_type (t : string) (l : list MWV) : nat :=
  length (List.filter (fun m => String.eqb (MType float m) t) l).

Definition add_count (o : option nat) (n : nat) : option nat :=
  match o, n with
  | None, O => None
  | _, _ => Some (default 0 o + n)
  end.

Lemma stats_fold (l : list MWV) bt nm mn mx :
  let '(bt', nm', mn', mx') := fold_left (stats_step float) l (bt, nm, mn, mx) in
  (forall t, bt' !! t = add_count (bt !! t) (count_type t l)) /\
  (forall k, is_Some (nm' !! k) <-> is_Some (nm !! k) \/ In k (map (MName float) l)) /\
  (mn' <= mn)%Z /\ (mx <= mx')%Z /\
  (forall m, In m l -> mn' <= MTimestamp float m <= mx')%Z /\
  (mn' = mn \/ exists m, In m l /\ MTimestamp float m = mn') /\
  (mx' = mx \/ exists m, In m l /\ MTimestamp float m = mx').
Proof.
  revert bt nm mn mx. induction l as [|m l IH]; intros bt nm mn mx; simpl.
  - split; [intros t; unfold count_type; simpl; destruct (bt !! t); simpl; [f_equal; lia|reflexivity]|].
    split; [intros k; split; [left; exact H|intros [H|[]]; exact H]|].
    split; [lia|]. split; [lia|]. split; [intros _ []|].
    split; left; reflexivity.
  - match goal with |- context [fold_left _ l ?st] => specialize (IH st.1.1.1 st.1.1.2 st.1.2 st.2) end.
    simpl in IH.
    destruct (fold_left (stats_step float) l _) as [[[bt' nm'] mn'] mx'].
    destruct IH as (Hbt & Hnm & Hmn & Hmx & Hin & Hmn' & Hmx').
    split; [|split; [|split; [|split; [|split; [|split]]]]].
    + intros t. rewrite Hbt. unfold count_type. simpl.
      destruct (String.eqb_spec (MType float m) t) as [<-|Hne].
      * rewrite lookup_insert_eq. simpl.
        destruct (bt !! MType float m); simpl; f_equal; lia.
      * rewrite lookup_insert_ne by congruence. reflexivity.
    + intros k. rewrite Hnm. destruct (String.eqb_spec (MName float m) k) as [<-|Hne].
      * rewrite lookup_insert_eq. split; [intros _; right; left; reflexivity|intros _; left; eexists; reflexivity].
      * rewrite lookup_insert_ne by congruence. simpl. split.
        -- intros [H|H]; [left; exact H|right; right; exact H].
        -- intros [H|[H|H]]; [left; exact H|congruence|right; exact H].
    + destruct (Z.ltb_spec (MTimestamp float m) mn); lia.
    + destruct (Z.gtb_spec (MTimestamp float m) mx); lia.
    + intros m' [<-|H].
      * destruct (Z.ltb_spec (MTimestamp float m) mn); destruct (Z.gtb_spec (MTimestamp float m) mx); lia.
      * apply Hin, H.
    + destruct Hmn' as [E|[m' [H E]]].
      * destruct (Z.ltb_spec (MTimestamp float m) mn).
        -- right. exists m. split; [left; reflexivity|lia].
        -- left. lia.
      * right. exists m'. split; [right; exact H|exact E].
    + destruct Hmx' as [E|[m' [H E]]].
      * destruct (Z.gtb_spec (MTimestamp float m) mx).
        -- right. exists m. split; [left; reflexivity|lia].
        -- left. lia.
      * right. exists m'. split; [right; exact H|exact E].
Qed.

(** GetMetricStats: the total is the number of records; MetricsByType maps
    each type to the number of records of that type and has no other key;
    UniqueMetricNames is the number of distinct names; on a non-empty input
    TimeRange is (smallest timestamp, largest timestamp), both taken by
    some record.  An empty input gives zero statistics and an empty map. *)
Theorem GetMetricStats_spec (metrics : list MWV) :
  let st := GetMetricStats float metrics in
  (metrics = [] -> st = mkMetricStats 0 ∅ 0 (0, 0)%Z) /\
  TotalMetrics st = length metrics /\
  (forall t, MetricsByType st !! t =
     if Nat.eqb (count_type t metrics) 0 then None else Some (count_type t metrics)) /\
  UniqueMetricNames st = size (list_to_set (map (MName float) metrics) : gset string) /\
  (metrics <> [] ->
   (forall m, In m metrics ->
      (fst (TimeRange st) <= MTimestamp float m <= snd (TimeRange st))%Z) /\
   (exists m, In m metrics /\ MTimestamp float m = fst (TimeRange st)) /\
   (exists m, In m metrics /\ MTimestamp float m = snd (TimeRange st))).
Proof.
  intros st. subst st. destruct metrics as [|m0 r].
  - split; [reflexivity|]. split; [reflexivity|].
    split; [intros t; reflexivity|].
    split; [reflexivity|]. intros H; congruence.
  - cbv beta iota delta [GetMetricStats].
    pose proof (stats_fold (m0 :: r) ∅ ∅ (MTimestamp float m0) (MTimestamp float m0)) as F.
    destruct (fold_left (stats_step float) (m0 :: r) _) as [[[bt nm] mn] mx].
    destruct F as (Hbt & Hnm & Hmn & Hmx & Hin & Hmn' & Hmx').
    assert (Hm0 : In m0 (m0 :: r)) by (left; reflexivity).
    split; [intros H; congruence|].
    split; [reflexivity|]. split; [|split].
    + intros t. cbn [MetricsByType]. rewrite Hbt, lookup_empty.
      destruct (count_type t (m0 :: r)); reflexivity.
    + cbn [UniqueMetricNames]. rewrite <- size_dom. f_equal.
      apply set_eq. intros k. rewrite elem_of_dom, Hnm, elem_of_list_to_set.
      rewrite lookup_empty, list_elem_of_In. split; [intros [H|H]; [inversion H; discriminate|exact H]|intros H; right; exact H].
    + intros _. cbn [TimeRange fst snd]. split; [exact Hin|]. split.
      * destruct Hmn' as [E|H]; [exists m0; split; [exact Hm0|symmetry; exact E]|exact H].
      * destruct Hmx' as [E|H]; [exists m0; split; [exact Hm0|symmetry; exact E]|exact H].
Qed.

End Proofs.

End AggregateMoreProofs.

Module ConfigMoreProofs.

Import Identity Config ConfigMore.

(** [s] contains no byte [c]. *)
Definition no_char (c : Ascii.ascii) (s : string) : Prop :=
  ~ In c (String.list_ascii_of_string s).

(** A byte TrimSpace keeps at an edge: ASCII and not white space. *)
Definition edge_byte (c : Ascii.ascii) : Prop :=
  (byte_of c < RuneSelf)%Z /\ asciiSpace (byte_of c) = false.

(** The first and last bytes of [s] are ASCII and not white space. *)
Definition edge_trimmed (s : string) : Prop :=
  forall c, hd_error (String.list_ascii_of_string s) = Some c \/
            hd_error (rev (String.list_ascii_of_string s)) = Some c ->
            edge_byte c.

Lemma str_app_cons (c : Ascii.ascii) (s t : string) :
  String c s ++ t = String c (s ++ t).
Proof. reflexivity. Qed.

Lemma str_app_nil (s : string) : "" ++ s = s.
Proof. reflexivity. Qed.

Lemma list_ascii_app (a b : string) :
  String.list_ascii_of_string (a ++ b) =
  (String.list_ascii_of_string a ++ String.list_ascii_of_string b)%list.
Proof.
  induction a as [|c a IH]; [reflexivity|].
  rewrite str_app_cons. simpl. f_equal. exact IH.
Qed.

Lemma append_empty_r (s : string) : s ++ "" = s.
Proof. induction s as [|c s IH]; [reflexivity|]. rewrite str_app_cons, IH. reflexivity. Qed.

Lemma trim_space_start_keep (c : Ascii.ascii) (r : list Ascii.ascii) :
  edge_byte c -> trim_space_start (c :: r) = Fast (c :: r).
Proof.
  intros [H1 H2]. cbn [trim_space_start].
  replace (RuneSelf <=? byte_of c)%Z with false by (symmetry; apply Z.leb_gt; lia).
  rewrite H2. reflexivity.
Qed.

Lemma trim_space_stop_keep (c : Ascii.ascii) (r : list Ascii.ascii) :
  edge_byte c -> trim_space_stop (c :: r) = Fast (rev (c :: r)).
Proof.
  intros [H1 H2]. cbn [trim_space_stop].
  replace (RuneSelf <=? byte_of c)%Z with false by (symmetry; apply Z.leb_gt; lia).
  rewrite H2. reflexivity.
Qed.

Lemma TrimSpace_trimmed (s : string) : edge_trimmed s -> TrimSpace s = s.
Proof.
  intros H. unfold TrimSpace.
  destruct (String.list_ascii_of_string s) as [|c r] eqn:Es.
  - cbn. rewrite <- (String.string_of_list_ascii_of_string s), Es. reflexivity.
  - rewrite (trim_space_start_keep c r) by (apply H; left; rewrite Es; reflexivity).
    destruct (rev (c :: r)) as [|d r'] eqn:Er.
    + exfalso. apply (f_equal (@length _)) in Er. cbn in Er.
      rewrite length_app in Er. cbn in Er. lia.
    + rewrite (trim_space_stop_keep d r')
        by (apply H; right; rewrite Es, Er; reflexivity).
      rewrite <- Er, rev_involutive, <- Es.
      apply String.string_of_list_ascii_of_string.
Qed.

Lemma pair_trimmed (k v : string) :
  k <> "" -> edge_trimmed k -> edge_trimmed v -> edge_trimmed (k ++ "=" ++ v).
Proof.
  intros Hk Ek Ev c [Hc|Hc]; rewrite !list_ascii_app in Hc.
  - destruct k as [|d k]; [congruence|]. apply Ek. left. exact Hc.
  - rewrite rev_app_distr in Hc. simpl in Hc.
    rewrite <- app_assoc in Hc.
    destruct (rev (String.list_ascii_of_string v)) as [|d r] eqn:Er.
    + simpl in Hc. injection Hc as <-. split; [vm_compute; reflexivity|reflexivity].
    + simpl in Hc. apply Ev. right. rewrite Er. exact Hc.
Qed.

Lemma cut_at_pair (k v : string) :
  no_char "="%char k -> cut_at (k ++ "=" ++ v) "="%char = Some (k, v).
Proof.
  induction k as [|c k IH]; intros Hk; [reflexivity|]. rewrite str_app_cons. simpl.
  destruct (Ascii.eqb_spec c "="%char) as [->|Hne].
  - exfalso. apply Hk. left. reflexivity.
  - rewrite IH; [reflexivity|]. intros Hin. apply Hk. right. exact Hin.
Qed.

Definition prepend (p : string) (ps : list string) : list string :=
  match ps with
  | q :: qs => (p ++ q) :: qs
  | [] => [p]
  end.

Lemma Split_app (p s : string) (sep : Ascii.ascii) :
  no_char sep p -> Split (p ++ s) sep = prepend p (Split s sep).
Proof.
  induction p as [|c p IH]; intros Hp.
  - rewrite str_app_nil. simpl. destruct (Split s sep) eqn:E; [|reflexivity].
    destruct s; simpl in E; [discriminate|].
    destruct (Ascii.eqb a sep); [discriminate|]. destruct (Split s sep); discriminate.
  - rewrite str_app_cons. simpl. destruct (Ascii.eqb_spec c sep) as [->|Hne].
    + exfalso. apply Hp. left. reflexivity.
    + rewrite IH by (intros Hin; apply Hp; right; exact Hin).
      destruct (Split s sep); reflexivity.
Qed.

Lemma Split_sep (s : string) (sep : Ascii.ascii) :
  Split (String sep s) sep = "" :: Split s sep.
Proof. simpl. rewrite Ascii.eqb_refl. reflexivity. Qed.

Lemma Split_Join (ps : list string) (sep : Ascii.ascii) :
  ps <> [] -> Forall (no_char sep) ps ->
  Split (Join ps (String sep "")) sep = ps.
Proof.
  induction ps as [|p ps IH]; intros Hne Hall; [congruence|].
  inversion Hall as [|? ? Hp Hps]; subst.
  destruct ps as [|q qs].
  - simpl. rewrite <- (append_empty_r p) at 1. rewrite Split_app by exact Hp.
    simpl. rewrite append_empty_r. reflexivity.
  - change (Join (p :: q :: qs) (String sep "")) with
      (p ++ String sep "" ++ Join (q :: qs) (String sep "")).
    rewrite Split_app by exact Hp. rewrite str_app_cons, str_app_nil, Split_sep.
    rewrite IH by (congruence || exact Hps).
    simpl. rewrite append_empty_r. reflexivity.
Qed.

Lemma fold_insert_list_to_map (l : list (string * string)) (m : gmap string string) :
  fold_left (fun m '(k, v) => <[k := v]> m) l m = list_to_map (rev l) ∪ m.
Proof.
  revert m. induction l as [|[k v] l IH]; intros m; simpl.
  - rewrite map_empty_union. reflexivity.
  - rewrite IH, list_to_map_app. simpl.
    rewrite <- map_union_assoc. f_equal.
    rewrite insert_union_singleton_l. f_equal.
Qed.

(** Labels written as [k1=v1,k2=v2,...] with keys free of ',', '=' and
    surrounding white space, and values free of ',' and surrounding white
    space (a value may contain '='), are read back by parseLabels; when a
    key repeats, its last value wins. *)
Theorem parseLabels_roundtrip (pairs : list (string * string)) :
  Forall (fun '(k, v) => k <> "" /\ no_char ","%char k /\ no_char "="%char k /\
                         edge_trimmed k /\ no_char ","%char v /\ edge_trimmed v) pairs ->
  parseLabels (Join (map (fun '(k, v) => k ++ "=" ++ v) pairs) ",") =
  list_to_map (rev pairs).
Proof.
  intros Hall. unfold parseLabels.
  assert (Hfold : forall m,
    fold_left parse_label_pair (map (fun '(k, v) => k ++ "=" ++ v) pairs) m =
    fold_left (fun m '(k, v) => <[k := v]> m) pairs m).
  { clear -Hall. induction pairs as [|[k v] r IH]; intros m; [reflexivity|].
    inversion Hall as [|? ? Hkv Hr]; subst.
    destruct Hkv as (Hk & Hkc & Hke & Ek & Hvc & Ev).
    simpl. rewrite <- (IH Hr). f_equal.
    unfold parse_label_pair.
    rewrite (TrimSpace_trimmed _ (pair_trimmed k v Hk Ek Ev)).
    unfold SplitN2. rewrite (cut_at_pair k v Hke).
    rewrite (TrimSpace_trimmed k Ek), (TrimSpace_trimmed v Ev).
    destruct (String.eqb_spec k "") as [E|_]; [congruence|reflexivity]. }
  destruct pairs as [|[k v] r].
  - reflexivity.
  - change "," with (String ","%char "").
    rewrite Split_Join.
    + rewrite Hfold, fold_insert_list_to_map, map_union_empty. reflexivity.
    + discriminate.
    + apply Forall_map. eapply Forall_impl; [exact Hall|].
      intros [k' v'] (Hk & Hkc & Hke & Ek & Hvc & Ev) Hin.
      rewrite !list_ascii_app in Hin. apply in_app_or in Hin as [H|H].
      * exact (Hkc H).
      * destruct H as [H|H]; [discriminate|exact (Hvc H)].
Qed.

(** DefaultConfig passes validate exactly when getVMIDFromDMIDecode found a
    VM ID; otherwise validate reports the missing vm_id. *)
Theorem DefaultConfig_valid_iff_vmid (unicode_ToLower : Z -> Z) (h : host) :
  validate unicode_ToLower (Base (DefaultConfig h)) =
  if String.eqb (getVMIDFromDMIDecode h) "" then Some vmid_error else None.
Proof.
  unfold DefaultConfig. cbn [Base]. unfold validate.
  cbn [CollectionInterval HTTPTimeout VMID MaxRetries RetryInterval LogLevel].
  destruct (String.eqb (getVMIDFromDMIDecode h) ""); reflexivity.
Qed.

Lemma merge_labels_union (into from : gmap string string) :
  merge_labels into from = from ∪ into.
Proof.
  unfold merge_labels. rewrite fold_insert_list_to_map. f_equal.
  rewrite <- (list_to_map_to_list from) at 2.
  apply list_to_map_proper.
  - assert (Hp : (rev (map_to_list from)).*1 ≡ₚ (map_to_list from).*1).
    { apply fmap_Permutation. symmetry. apply Permutation_rev. }
    rewrite Hp. apply NoDup_fst_map_to_list.
  - symmetry. apply Permutation_rev.
Qed.

Section LoadProofs.

Variable ParseDuration : string -> option Z.
Variable env : string -> string.
Variable unmarshal : string -> AgentConfig -> result AgentConfig.
Variable unicode_ToLower : Z -> Z.

(** Where Load takes the VM ID and the static labels from: SC_VM_ID when
    set, else the config file's vm_id when the file names one, else the
    dmidecode result; SC_LABELS entries override the file's labels, which
    are otherwise kept.  A loaded config never has an empty VM ID. *)
Theorem Load_sources (h : host) (cfg : AgentConfig) :
  Load ParseDuration env unmarshal unicode_ToLower h = Ok cfg ->
  (env "SC_AGENT_CONFIG" = "" ->
     VMID (Base cfg) = (if String.eqb (env "SC_VM_ID") "" then getVMIDFromDMIDecode h
                        else env "SC_VM_ID") /\
     Labels cfg = (if String.eqb (env "SC_LABELS") "" then ∅
                   else parseLabels (env "SC_LABELS"))) /\
  (env "SC_AGENT_CONFIG" <> "" ->
   exists c', unmarshal (env "SC_AGENT_CONFIG") (DefaultConfig h) = Ok c' /\
     VMID (Base cfg) =
       (if String.eqb (env "SC_VM_ID") "" then
          (if String.eqb (VMID (Base c')) "" then getVMIDFromDMIDecode h
           else VMID (Base c'))
        else env "SC_VM_ID") /\
     Labels cfg = (if String.eqb (env "SC_LABELS") "" then Labels c'
                   else parseLabels (env "SC_LABELS") ∪ Labels c')) /\
  VMID (Base cfg) <> "".
Proof.
  unfold Load. intros H.
  destruct (String.eqb_spec (env "SC_AGENT_CONFIG") "") as [Hp|Hp]; cbn [negb] in H.
  - destruct (validate unicode_ToLower (Base (loadFromEnv ParseDuration env (DefaultConfig h))))
      eqn:V;
      [discriminate|].
    injection H as <-.
    assert (Hv : VMID (Base (loadFromEnv ParseDuration env (DefaultConfig h))) <> "").
    { intros E. unfold validate in V. rewrite E in V.
      destruct (_ <=? 0)%Z; [discriminate|]. destruct (_ <=? 0)%Z; [discriminate|].
      discriminate. }
    split; [|split; [intros C; contradiction|exact Hv]].
    intros _. unfold loadFromEnv, env_string. cbn [Base VMID Labels DefaultConfig].
    split; [reflexivity|].
    destruct (String.eqb (env "SC_LABELS") ""); [reflexivity|].
    rewrite merge_labels_union, map_union_empty. reflexivity.
  - unfold loadFromFile in H.
    destruct (unmarshal (env "SC_AGENT_CONFIG") (DefaultConfig h)) as [c'|e] eqn:U;
      [|discriminate].
    set (loaded := if String.eqb (VMID (Base c')) "" &&
                      negb (String.eqb (VMID (Base (DefaultConfig h))) "")
                   then with_vmid c' (VMID (Base (DefaultConfig h))) else c') in H.
    assert (Hl : (if String.eqb (VMID (Base c')) "" &&
                     negb (String.eqb (VMID (Base (DefaultConfig h))) "")
                  then Ok (with_vmid c' (VMID (Base (DefaultConfig h)))) else Ok c')
                 = Ok loaded) by (subst loaded; destruct (_ && _); reflexivity).
    rewrite Hl in H.
    destruct (validate unicode_ToLower (Base (loadFromEnv ParseDuration env loaded))) eqn:V;
      [discriminate|].
    injection H as <-.
    assert (Hv : VMID (Base (loadFromEnv ParseDuration env loaded)) <> "").
    { intros E. unfold validate in V. rewrite E in V.
      destruct (_ <=? 0)%Z; [discriminate|]. destruct (_ <=? 0)%Z; [discriminate|].
      discriminate. }
    split; [intros C; contradiction|]. split; [|exact Hv].
    intros _. exists c'. split; [reflexivity|].
    assert (Lv : VMID (Base loaded) =
                 if String.eqb (VMID (Base c')) "" then getVMIDFromDMIDecode h
                 else VMID (Base c')).
    { subst loaded. cbn [DefaultConfig Base VMID].
      destruct (String.eqb_spec (VMID (Base c')) "") as [E|E];
        destruct (String.eqb_spec (getVMIDFromDMIDecode h) "") as [E'|E'];
        cbn [andb negb]; try reflexivity.
      rewrite E, E'. reflexivity. }
    assert (Ll : Labels loaded = Labels c') by (subst loaded; destruct (_ && _); reflexivity).
    unfold loadFromEnv, env_string. cbn [Base VMID Labels].
    rewrite <- Lv, <- Ll. split; [reflexivity|].
    destruct (String.eqb (env "SC_LABELS") ""); [reflexivity|].
    apply merge_labels_union.
Qed.

End LoadProofs.

End ConfigMoreProofs.

Module AgentMainProofs.

Import Config AgentMain.

(** validate lower-cases log_level with strings.ToLower before checking
    it, initLogger matches it as written: a level whose lower-case form
    differs from it (say "DEBUG") makes the agent log at info level, and
    when that lower-case form is a valid level, validate treats the config
    exactly as with log_level "info".  This holds whatever unicode.ToLower
    does on non-ASCII runes. *)
Theorem initLogger_ignores_mixed_case (unicode_ToLower : Z -> Z) (c : Config) :
  ToLower unicode_ToLower (LogLevel c) <> LogLevel c ->
  initLogger_level (LogLevel c) = InfoLevel /\
  (In (ToLower unicode_ToLower (LogLevel c)) validLogLevels ->
   validate unicode_ToLower c =
   validate unicode_ToLower
     (mkConfig (CollectionInterval c) (HTTPTimeout c) (VMID c) (Collectors c) "info"
        (MaxRetries c) (RetryInterval c))).
Proof.
  intros Hl. split.
  - unfold initLogger_level.
    repeat match goal with
    | |- context [String.eqb (LogLevel c) ?n] =>
        destruct (String.eqb_spec (LogLevel c) n) as [E|_];
        [rewrite E in Hl; exfalso; apply Hl; reflexivity|]
    end; reflexivity.
  - intros Hin.
    assert (He : existsb (String.eqb (ToLower unicode_ToLower (LogLevel c))) validLogLevels
                 = true).
    { apply existsb_exists. exists (ToLower unicode_ToLower (LogLevel c)).
      split; [exact Hin|]. apply String.eqb_refl. }
    assert (Hi : existsb (String.eqb (ToLower unicode_ToLower "info")) validLogLevels = true)
      by reflexivity.
    unfold validate.
    cbn [CollectionInterval HTTPTimeout VMID Collectors LogLevel MaxRetries RetryInterval].
    rewrite He, Hi. unfold hasEnabledCollectors. cbn [Collectors]. reflexivity.
Qed.


End AgentMainProofs.

Module TsRequestsProofs.

Import TsClient TsRequests.

Section Proofs.

Variable bytes metric diagnostics : Type.
Variable marshal_metrics : list metric -> result bytes.
Variable marshal_diagnostics : diagnostics -> result bytes.
Variable snappy_encode : bytes -> bytes.

Lemma headers_lookup (ct tok : string) :
  sendRequest_headers ct tok !! "Content-Type" = Some ct /\
  sendRequest_headers ct tok !! "User-Agent" = Some UserAgentValue /\
  sendRequest_headers ct tok !! "Content-Encoding" =
    (if String.eqb ct ContentTypeJSON then None else Some ContentEncodingSnappy) /\
  sendRequest_headers ct tok !! "Authorization" =
    (if String.eqb tok "" then None else Some ("Bearer " ++ tok)) /\
  (forall k, k <> "Content-Type" -> k <> "User-Agent" -> k <> "Content-Encoding" ->
     k <> "Authorization" -> sendRequest_headers ct tok !! k = None).
Proof.
  unfold sendRequest_headers.
  destruct (String.eqb ct ContentTypeJSON), (String.eqb tok ""); cbn [negb];
    repeat split;
    repeat first [ rewrite lookup_insert_eq; reflexivity
                 | rewrite lookup_insert_ne by discriminate ];
    try reflexivity;
    intros k H1 H2 H3 H4;
    repeat rewrite lookup_insert_ne by congruence; apply lookup_empty.
Qed.

(** SendMetrics rejects an empty batch before anything else; with records,
    a payload and a non-empty CloudAPI URL it posts the snappy-compressed
    payload to <url>/resource-manager/api/v1/metrics/ingest as
    application/timeseries-binary-0 with Content-Encoding snappy, the
    agent's User-Agent and, exactly when the token is non-empty, a Bearer
    Authorization header, through the retry loop; a nil AuthManager or an
    empty URL fails before any request. *)
Theorem SendMetrics_request (c : Client) (e : env) (authMgr : option string)
  (metrics : list metric) (authToken : string) :
  (metrics = [] ->
     SendMetrics bytes metric marshal_metrics snappy_encode c e authMgr metrics authToken
     = EarlyErr "no metrics to send") /\
  (forall payload, metrics <> [] -> marshal_metrics metrics = Ok payload ->
     match authMgr with
     | None =>
         SendMetrics bytes metric marshal_metrics snappy_encode c e authMgr metrics authToken
         = EarlyErr "failed to resolve ingestor endpoint: AuthManager is required for endpoint resolution"
     | Some url =>
         if String.eqb url "" then
           SendMetrics bytes metric marshal_metrics snappy_encode c e authMgr metrics authToken
           = EarlyErr "failed to resolve ingestor endpoint: empty CloudAPI URL from metadata"
         else exists req,
           SendMetrics bytes metric marshal_metrics snappy_encode c e authMgr metrics authToken
           = Posted req (sendWithRetry c e) /\
           req_endpoint req = url ++ "/resource-manager/api/v1/metrics/ingest" /\
           req_content_type req = ContentTypeTimeseriesBinary /\
           req_body req = snappy_encode payload /\
           req_headers req !! "Content-Type" = Some ContentTypeTimeseriesBinary /\
           req_headers req !! "Content-Encoding" = Some ContentEncodingSnappy /\
           req_headers req !! "User-Agent" = Some UserAgentValue /\
           req_headers req !! "Authorization" =
             (if String.eqb authToken "" then None else Some ("Bearer " ++ authToken))
     end).
Proof.
  split.
  - intros ->. reflexivity.
  - intros payload Hne Hp. unfold SendMetrics.
    destruct metrics as [|m r]; [contradiction|]. cbn [length Nat.eqb].
    rewrite Hp. destruct authMgr as [url|]; [|reflexivity].
    cbn [getIngestorEndpoint]. destruct (String.eqb url ""); [reflexivity|].
    eexists. split; [reflexivity|]. cbn [req_endpoint req_content_type req_body req_headers].
    destruct (headers_lookup ContentTypeTimeseriesBinary authToken) as (H1 & H2 & H3 & H4 & _).
    rewrite H1, H2, H3, H4. repeat split.
Qed.

(** The heartbeat goes out once: unlike SendMetrics and SendDiagnostics
    (which post snappy-compressed binary bodies through the retry loop),
    SendHeartbeat posts JSON without a Content-Encoding header, and a
    retryable status such as 503 on that single attempt is returned as the
    response, while the retry loop of a client allowing a retry makes a
    second attempt on the same reply. *)
Theorem SendHeartbeat_single_attempt (c : Client) (e : env) (url : string) (b : bytes)
  (authToken : string) (st : Z) (hdr : string) (now : Z) :
  url <> "" -> wire_at e 0 = WireReply st hdr now -> shouldRetry st = true ->
  (1 <= maxRetries c)%Z -> ctx_done_before e 0 = false -> ctx_done_before e 1 = false ->
  (exists req,
     SendHeartbeat bytes e (Some url) (Ok b) authToken =
       Ok (req, Ok (mkResponse st (parseRetryAfter (http_parse_time e) now hdr))) /\
     req_endpoint req = url ++ "/resource-manager/api/v1/compute/agent/heartbeat" /\
     req_headers req !! "Content-Type" = Some ContentTypeJSON /\
     req_headers req !! "Content-Encoding" = None) /\
  (exists tr, snd (sendWithRetry c e) = (0%nat, 0%Z) :: (1%nat, wait_before (retryDelay c) 1
       (Some (mkResponse st (parseRetryAfter (http_parse_time e) now hdr)))) :: tr).
Proof.
  intros Hu Hw Hs Hm H0 H1. split.
  - unfold SendHeartbeat. apply String.eqb_neq in Hu. rewrite Hu. rewrite Hw.
    eexists. split; [reflexivity|]. cbn [req_endpoint req_headers].
    destruct (headers_lookup ContentTypeJSON authToken) as (Ha & _ & Hc & _).
    rewrite Ha, Hc. split; [reflexivity|]. split; reflexivity.
  - unfold sendWithRetry.
    destruct (Z.to_nat (maxRetries c + 1)) as [|[|f]] eqn:Ef; [lia|lia|].
    cbn [retry_loop]. rewrite H0, Hw, Hs, H1.
    destruct (wire_at e 1) as [|st' hdr' now']; [|destruct (shouldRetry st')];
      try (match goal with |- context [retry_loop e ?d f 2 ?l] =>
             destruct (retry_loop e d f 2 l) as [res' tr'] end;
           exists tr'; reflexivity).
    exists []. reflexivity.
Qed.

(** SendDiagnostics posts the snappy-compressed diagnostics to the same
    ingest endpoint as the metrics (<url>/resource-manager/api/v1/metrics/ingest),
    distinguished only by its application/diagnostics-binary-0 content type,
    through the same retry loop; without an AuthManager it fails before any
    request. *)
Theorem SendDiagnostics_request (c : Client) (e : env) (d : diagnostics)
  (payload : bytes) (authToken : string) :
  marshal_diagnostics d = Ok payload ->
  SendDiagnostics bytes diagnostics marshal_diagnostics snappy_encode c e None d authToken
  = EarlyErr "failed to resolve ingestor endpoint: AuthManager is required for endpoint resolution" /\
  forall url, url <> "" ->
  exists req,
    SendDiagnostics bytes diagnostics marshal_diagnostics snappy_encode c e (Some url) d authToken
    = Posted req (sendWithRetry c e) /\
    req_endpoint req = url ++ "/resource-manager/api/v1/metrics/ingest" /\
    req_content_type req = ContentTypeDiagnostics /\
    req_body req = snappy_encode payload /\
    req_headers req !! "Content-Type" = Some ContentTypeDiagnostics /\
    req_headers req !! "Content-Encoding" = Some ContentEncodingSnappy.
Proof.
  intros Hp. unfold SendDiagnostics. rewrite Hp. split; [reflexivity|].
  intros url Hu. cbn [getIngestorEndpoint]. apply String.eqb_neq in Hu. rewrite Hu.
  eexists. split; [reflexivity|]. cbn [req_endpoint req_content_type req_body req_headers].
  destruct (headers_lookup ContentTypeDiagnostics authToken) as (H1 & _ & H3 & _).
  rewrite H1, H3. repeat split.
Qed.

End Proofs.

End TsRequestsProofs.

Module WritersProofs.

Import GoFmt AggregateMore Writers AggregateMoreProofs.

Section Proofs.

Variable float : Type.
Abbreviation MWV := (Aggregate.MetricWithValue float).

Lemma string_app_assoc (a b c : string) : (a ++ b) ++ c = a ++ (b ++ c).
Proof.
  induction a as [|ch a IH]; [reflexivity|].
  change ((String ch a ++ b) ++ c = String ch (a ++ b ++ c)).
  change (String ch (a ++ b) ++ c = String ch (a ++ b ++ c)).
  change (String ch ((a ++ b) ++ c) = String ch (a ++ b ++ c)). rewrite IH. reflexivity.
Qed.

Lemma string_app_nil_r (a : string) : a ++ "" = a.
Proof.
  induction a as [|ch a IH]; [reflexivity|].
  change (String ch (a ++ "") = String ch a). rewrite IH. reflexivity.
Qed.

(** metricWriter.WriteMetrics succeeds without sending when there is
    nothing to write; otherwise it succeeds exactly when SendMetrics
    returns a 2xx status, and a non-2xx reply is reported with its status
    and, when non-empty, its body. *)
Theorem metricWriter_WriteMetrics_spec (send : list MWV -> string -> result (Z * string))
  (metrics : list MWV) (authToken : string) :
  (metrics = [] -> metricWriter_WriteMetrics float send metrics authToken = None) /\
  (metrics <> [] ->
     (metricWriter_WriteMetrics float send metrics authToken = None <->
      exists status body, send metrics authToken = Ok (status, body) /\
                          (200 <= status < 300)%Z) /\
     (forall status body, send metrics authToken = Ok (status, body) ->
        ~ (200 <= status < 300)%Z ->
        metricWriter_WriteMetrics float send metrics authToken =
        Some ("failed to write metrics: ingestor returned status " ++ Itoa status ++
              (if String.eqb body "" then "" else ": " ++ body)))).
Proof.
  split; [intros ->; reflexivity|]. intros Hne.
  unfold metricWriter_WriteMetrics.
  destruct metrics as [|m r]; [contradiction|]. cbn [length Nat.eqb].
  split.
  - destruct (send (m :: r) authToken) as [[status body]|err]; split.
    + destruct ((200 <=? status)%Z && (status <? 300)%Z) eqn:E; [|discriminate].
      intros _. exists status, body. split; [reflexivity|].
      apply andb_true_iff in E as [E1 E2]. lia.
    + intros (st & bd & Hs & Hr). injection Hs as <- <-.
      destruct (Z.leb_spec 200 status); [|lia]. destruct (Z.ltb_spec status 300); [|lia].
      reflexivity.
    + discriminate.
    + intros (st & bd & Hs & _). discriminate.
  - intros status body Hs Hr. rewrite Hs.
    destruct ((200 <=? status)%Z && (status <? 300)%Z) eqn:E.
    { apply andb_true_iff in E as [E1 E2]. lia. }
    destruct body as [|ch body'].
    + cbn [String.eqb String.length Nat.ltb Nat.leb]. rewrite string_app_nil_r. reflexivity.
    + cbn [String.eqb String.length Nat.ltb Nat.leb].
      rewrite !string_app_assoc. reflexivity.
Qed.

Section Batched.

Variable write : list MWV -> string -> option string.
Variable ctx_done : nat -> bool.
Variable ctx_err : string.

Definition batch_msg (total k : nat) (err : string) : string :=
  "failed to write batch " ++ Itoa (Z.of_nat k) ++ "/" ++ Itoa (Z.of_nat total) ++ ": " ++ err.

Lemma write_batches_spec (authToken : string) (total : nat) (batches : list (list MWV)) :
  forall i,
  let '(res, sent) := write_batches float write ctx_done ctx_err authToken total i batches in
  (exists rest, batches = (sent ++ rest)%list) /\
  (res = None -> sent = batches /\ Forall (fun b => write b authToken = None) sent) /\
  (forall err, res = Some err -> err = ctx_err \/
     exists pre b e, sent = (pre ++ [b])%list /\ Forall (fun b => write b authToken = None) pre /\
       write b authToken = Some e /\ err = batch_msg total (i + length pre + 1) e).
Proof.
  induction batches as [|b bs IH]; intros i; cbn [write_batches].
  - split; [exists []; reflexivity|]. split; [intros _; split; [reflexivity|constructor]|].
    intros err H; discriminate.
  - destruct (ctx_done i).
    + split; [exists (b :: bs); reflexivity|]. split; [discriminate|].
      intros err H. injection H as <-. left. reflexivity.
    + destruct (write b authToken) as [e|] eqn:Ew.
      * split; [exists bs; reflexivity|]. split; [discriminate|].
        intros err H. injection H as <-. right. exists [], b, e.
        split; [reflexivity|]. split; [constructor|]. split; [exact Ew|].
        unfold batch_msg. cbn [length]. rewrite Nat.add_0_r. reflexivity.
      * specialize (IH (S i)).
        destruct (write_batches float write ctx_done ctx_err authToken total (S i) bs)
          as [res sent].
        destruct IH as ([rest Hr] & Hn & Hs).
        split; [exists rest; rewrite Hr; reflexivity|]. split.
        -- intros H. destruct (Hn H) as [-> Hall]. split; [reflexivity|].
           constructor; assumption.
        -- intros err H. destruct (Hs err H) as [Hc|(pre & b' & e & -> & Hall & Hw & Hm)];
             [left; exact Hc|].
           right. exists (b :: pre), b', e. split; [reflexivity|].
           split; [constructor; assumption|]. split; [exact Hw|].
           rewrite Hm. cbn [length]. f_equal. lia.
Qed.

(** BatchedMetricWriter.WriteMetrics (with the batch size as
    NewBatchedMetricWriter fixes it: 1000 when not positive) hands the
    inner writer consecutive non-empty batches of at most that size,
    starting at the first record; it succeeds only when every batch was
    written and all records went out; otherwise it stops at a cancelled
    context, or after the first rejected batch, reporting that batch's
    1-based index and the number of batches. *)
Theorem Batched_WriteMetrics_spec (batchSize : Z) (metrics : list MWV) (authToken : string) :
  let size := NewBatchedMetricWriter batchSize in
  let '(res, sent) :=
    Batched_WriteMetrics float write ctx_done ctx_err size metrics authToken in
  (exists rest, metrics = (concat sent ++ rest)%list) /\
  Forall (fun b => b <> [] /\ (length b <= Z.to_nat size)%nat) sent /\
  (res = None -> concat sent = metrics /\ Forall (fun b => write b authToken = None) sent) /\
  (forall err, res = Some err -> err = ctx_err \/
     exists pre b e, sent = (pre ++ [b])%list /\ Forall (fun b => write b authToken = None) pre /\
       write b authToken = Some e /\
       err = batch_msg (length (BatchMetrics float metrics size)) (length pre + 1) e).
Proof.
  intros size. unfold Batched_WriteMetrics.
  destruct (Nat.eqb_spec (length metrics) 0) as [Hl|Hl].
  - apply length_zero_iff_nil in Hl. subst metrics.
    split; [exists []; reflexivity|]. split; [constructor|].
    split; [intros _; split; [reflexivity|constructor]|]. intros err H; discriminate.
  - destruct (BatchMetrics_shape float metrics size) as (_ & Hc & Hall & _).
    assert (Hsz : effective_batch_size size = size).
    { subst size. unfold effective_batch_size, NewBatchedMetricWriter.
      destruct (Z.leb_spec batchSize 0); [reflexivity|].
      destruct (Z.leb_spec batchSize 0); [lia|reflexivity]. }
    rewrite Hsz in Hall.
    pose proof (write_batches_spec authToken (length (BatchMetrics float metrics size))
                  (BatchMetrics float metrics size) 0) as Hw.
    destruct (write_batches float write ctx_done ctx_err authToken _ 0 _) as [res sent].
    destruct Hw as ([rest Hr] & Hn & Hs).
    split; [exists (concat rest); rewrite <- concat_app, <- Hr; symmetry; exact Hc|].
    split.
    { rewrite Hr in Hall. apply Forall_app in Hall as [Hall _]. exact Hall. }
    split.
    + intros H. destruct (Hn H) as [Hb Hok]. split; [rewrite Hb; exact Hc|exact Hok].
    + intros err H. exact (Hs err H).
Qed.

End Batched.

End Proofs.

End WritersProofs.

Module MetadataMoreProofs.

Import Metadata GoFmt MetadataMore.

Open Scope Z_scope.

Lemma cache_valid_empty (c : Client) (now : Z) :
  cachedToken c = "" -> cache_valid c now = false.
Proof. intros H. unfold cache_valid. rewrite H. reflexivity. Qed.

Lemma fetchAuthToken_token_nonempty (r : fetch_reply) (tr : TokenResponse) :
  fetchAuthToken r = Ok tr -> String.eqb (Token tr) "" = false.
Proof.
  unfold fetchAuthToken. destruct r as [|st dec]; [discriminate|].
  destruct (negb (st =? 200)); [discriminate|].
  destruct dec as [tr'|]; [|discriminate].
  destruct (String.eqb (Token tr') "") eqn:He; [discriminate|].
  intros H. injection H as <-. exact He.
Qed.

Section Retry.

Variable clock : nat -> Z * Z * Z.
Variable reply : nat -> fetch_reply.
Variable ctx_done : nat -> bool.
Variable ctx_err : string.
Variable maxRetries : Z.

Lemma auth_retry_loop_all_fail (c : Client) (Hc : cachedToken c = "") :
  forall fuel attempt lastErr,
  (forall k, (attempt <= k < attempt + fuel)%nat ->
     ctx_done k = false /\ exists e, fetchAuthToken (reply k) = Err e) ->
  exists e,
    (fuel = 0%nat -> e = match lastErr with Some e => e | None => nil_error_w end) /\
    (fuel <> 0%nat -> fetchAuthToken (reply (attempt + fuel - 1)) = Err e) /\
    auth_retry_loop clock reply ctx_done ctx_err maxRetries fuel attempt c lastErr =
    (Err ("failed to fetch auth token after " ++ Itoa (maxRetries + 1) ++
          " attempts: " ++ e), c, fuel).
Proof.
  induction fuel as [|f IH]; intros attempt lastErr Hk.
  - eexists. split; [reflexivity|]. split; [intros H; contradiction|]. reflexivity.
  - destruct (Hk attempt ltac:(lia)) as [Hd [e0 He0]].
    cbn [auth_retry_loop]. rewrite Hd.
    destruct (clock attempt) as [[n1 n2] n3].
    unfold GetAuthToken. rewrite !cache_valid_empty by exact Hc. rewrite He0.
    destruct (IH (S attempt) (Some e0)) as (e & Hz & Hs & Hl).
    { intros k Hk'. apply Hk. lia. }
    rewrite Hl. exists e. split; [discriminate|]. split.
    + intros _. destruct f as [|f].
      * rewrite (Hz eq_refl). replace (attempt + 1 - 1)%nat with attempt by lia. exact He0.
      * replace (attempt + S (S f) - 1)%nat with (S attempt + S f - 1)%nat by lia.
        apply Hs. discriminate.
    + reflexivity.
Qed.

(** GetAuthTokenWithRetry with a negative retry count makes no attempt and
    fetches nothing: it fails at once, reporting maxRetries+1 attempts and a
    nil cause (%!w(<nil>)). *)
Theorem GetAuthTokenWithRetry_negative (c : Client) :
  maxRetries < 0 ->
  GetAuthTokenWithRetry clock reply ctx_done ctx_err maxRetries c =
  (Err ("failed to fetch auth token after " ++ Itoa (maxRetries + 1) ++
        " attempts: %!w(<nil>)"), c, 0%nat).
Proof.
  intros H. unfold GetAuthTokenWithRetry.
  replace (Z.to_nat (maxRetries + 1)) with 0%nat by lia. reflexivity.
Qed.

(** With no cached token and every metadata fetch failing (and the context
    never cancelled), GetAuthTokenWithRetry fetches exactly maxRetries+1
    times, leaves the client unchanged and reports the error of the last
    fetch. *)
Theorem GetAuthTokenWithRetry_all_fail (c : Client) :
  0 <= maxRetries -> cachedToken c = "" ->
  (forall k, ctx_done k = false /\ exists e, fetchAuthToken (reply k) = Err e) ->
  exists e, fetchAuthToken (reply (Z.to_nat maxRetries)) = Err e /\
    GetAuthTokenWithRetry clock reply ctx_done ctx_err maxRetries c =
    (Err ("failed to fetch auth token after " ++ Itoa (maxRetries + 1) ++
          " attempts: " ++ e), c, Z.to_nat (maxRetries + 1)).
Proof.
  intros Hm Hc Hk. unfold GetAuthTokenWithRetry.
  destruct (auth_retry_loop_all_fail c Hc (Z.to_nat (maxRetries + 1)) 0 None)
    as (e & _ & Hs & Hl).
  { intros k _. apply Hk. }
  exists e. split; [|exact Hl].
  replace (Z.to_nat maxRetries) with (0 + Z.to_nat (maxRetries + 1) - 1)%nat by lia.
  apply Hs. lia.
Qed.

End Retry.

(** A metadata reply with a token but no CloudAPI URL is cached like any
    other: for the whole lifetime of that token every GetCloudAPIURL call
    fails with "CloudAPI URL not available in metadata response", without
    fetching again and without changing the client, whatever the metadata
    service would now answer. *)
Theorem GetCloudAPIURL_empty_url_sticks (c : Client) (n1 n2 n3 : Z) (r : fetch_reply)
  (tr : TokenResponse) (m0 m1 m2 m3 : Z) (r' : fetch_reply) :
  fetchAuthToken r = Ok tr -> CloudAPIUrl tr = "" ->
  cache_valid c n1 = false -> cache_valid c n2 = false ->
  m1 < n3 + tokenLifetime c ->
  let '(res, c', fetched) := GetAuthToken c n1 n2 n3 r in
  res = Ok (Token tr) /\ fetched = true /\
  GetCloudAPIURL c' m0 m1 m2 m3 r' =
    (Err "CloudAPI URL not available in metadata response", c', false).
Proof.
  intros Hf Hu H1 H2 Hm. unfold GetAuthToken. rewrite H1, H2, Hf.
  split; [reflexivity|]. split; [reflexivity|].
  unfold GetCloudAPIURL. cbn [cachedAPIURL tokenExpiry]. rewrite Hu. cbn [String.eqb negb andb].
  unfold GetAuthToken.
  assert (Hv : cache_valid (mkClient (Token tr) "" (n3 + tokenLifetime c) (tokenLifetime c)) m1
               = true).
  { unfold cache_valid. cbn [cachedToken tokenExpiry].
    rewrite (fetchAuthToken_token_nonempty r tr Hf). cbn [negb andb].
    apply Z.ltb_lt. exact Hm. }
  rewrite Hv. reflexivity.
Qed.

(** AuthManager's token store: a forced refresh always fetches (the cache
    is invalidated first); when that fetch fails the manager keeps its old
    token while its client's cache is left empty, so a token once stored
    never becomes empty again; a successful fetch stores the fetched,
    non-empty token, the same one the client caches.  EnsureValidToken
    with a valid cached token fetches nothing and stores the cached one. *)
Theorem AuthManager_token_store (am : AuthManager) (n1 n2 n3 : Z) (r : fetch_reply) :
  (let '(err, am', fetched) := refresh am n1 n2 n3 r in
   fetched = true /\
   match err with
   | Some _ => currentToken am' = currentToken am /\ cachedToken (client am') = ""
   | None => currentToken am' = cachedToken (client am') /\ currentToken am' <> ""
   end) /\
  (forall force, currentToken am <> "" ->
     let '(_, am', _) := fetchAndStoreToken am force n1 n2 n3 r in currentToken am' <> "") /\
  (cache_valid (client am) n1 = true ->
     EnsureValidToken am n1 n2 n3 r =
     (None, mkAuthManager (client am) (cachedToken (client am)), false)).
Proof.
  split; [|split].
  - unfold refresh, fetchAndStoreToken, GetAuthToken.
    rewrite !cache_valid_empty by reflexivity.
    destruct (fetchAuthToken r) as [tr|e] eqn:Hf.
    + split; [reflexivity|]. cbn [currentToken client cachedToken]. split; [reflexivity|].
      apply String.eqb_neq. exact (fetchAuthToken_token_nonempty r tr Hf).
    + split; [reflexivity|]. split; reflexivity.
  - intros force Hne. unfold fetchAndStoreToken, GetAuthToken.
    destruct (cache_valid (if force then InvalidateCache (client am) else client am) n1)
      eqn:E1.
    { cbn [currentToken]. destruct force; [|].
      - rewrite cache_valid_empty in E1 by reflexivity. discriminate.
      - unfold cache_valid in E1. apply andb_true_iff in E1 as [E1 _].
        apply negb_true_iff, String.eqb_neq in E1. exact E1. }
    destruct (cache_valid (if force then InvalidateCache (client am) else client am) n2)
      eqn:E2.
    { cbn [currentToken]. destruct force; [|].
      - rewrite cache_valid_empty in E2 by reflexivity. discriminate.
      - unfold cache_valid in E2. apply andb_true_iff in E2 as [E2 _].
        apply negb_true_iff, String.eqb_neq in E2. exact E2. }
    destruct (fetchAuthToken r) as [tr|e] eqn:Hf; cbn [currentToken]; [|exact Hne].
    apply String.eqb_neq. exact (fetchAuthToken_token_nonempty r tr Hf).
  - intros Hv. unfold EnsureValidToken, fetchAndStoreToken, GetAuthToken. rewrite Hv.
    reflexivity.
Qed.

End MetadataMoreProofs.

Module PipelineProofs.

Import Pipeline.

Section Proofs.

Variable float : Type.
Abbreviation MWV := (Aggregate.MetricWithValue float).
Variable family : Type.
Variable Collect : result (list family).
Variable Decorate : list family -> result (list family).
Variable Aggregate : list family -> result (list MWV).
Variable WriteMetrics : list MWV -> string -> option string.
Variable ctx_done : nat -> bool.
Variable ctx_err : string.

Abbreviation run := (Process float family Collect Decorate Aggregate WriteMetrics ctx_done ctx_err).


Abbreviation live := (Process float family Collect Decorate Aggregate WriteMetrics
                         (fun _ => false) ctx_err).






(** A run that collects nothing returns no error but does not clear
    lastError: after a failed run, WriteDiagnostics keeps reporting the
    "error" status and the old message although Process now succeeds. *)
Theorem Process_empty_collection_keeps_error (p : Processor) (authToken : string)
  (startTime : Z) :
  authToken <> "" -> ctx_done 0 = false -> Collect = Ok [] -> lastError p <> "" ->
  run p authToken startTime = (None, p, None) /\
  diagnostics_status (lastError p) = "error".
Proof.
  intros Ht C0 Hc He. split.
  - unfold Process. apply String.eqb_neq in Ht. rewrite Ht, C0, Hc. reflexivity.
  - unfold diagnostics_status. apply String.eqb_neq in He. rewrite He. reflexivity.
Qed.

End Proofs.

End PipelineProofs.

Module CollectorMoreProofs.

Import Config Collector.

(** NewSystemCollector reads only six of the twenty-one collector switches
    (cpu, memory, loadavg, diskstats, netdev and filesystem): the result is
    the same with every other switch, the network one included, turned
    off. *)
Theorem NewSystemCollector_six_switches (cfg : CollectorConfig) (procfs_ok : bool) :
  NewSystemCollector cfg procfs_ok =
  NewSystemCollector
    (mkCollectorConfig false (CPU cfg) false (LoadAvg cfg) (Memory cfg) false false
       (DiskStats cfg) (Filesystem cfg) false (NetDev cfg) false false false false false
       false false false false false) procfs_ok.
Proof. reflexivity. Qed.

End CollectorMoreProofs.

(* ===================================================================== *)
(** * Witnesses: each theorem with hypotheses, applied at a concrete input *)
(* ===================================================================== *)

Module Witnesses.

Import Dto Aggregate.

Local Open Scope Z_scope.

(** C3 at a histogram with two buckets (float64 values as integers). *)
Lemma histogram_emits_buckets_count_sum_witness :
  Histogram_ (mkMetric [("job", "node")] None None None None
                (Some (mkHistogram 7 30 [mkBucket 3 1; mkBucket 7 5])) None)
    = Some (mkHistogram 7 30 [mkBucket 3 1; mkBucket 7 5]) /\
  exists out,
    processMetric Z (fun z => z) (fun _ => "g") "lat" "HISTOGRAM"
      (Some (mkMetric [("job", "node")] None None None None
               (Some (mkHistogram 7 30 [mkBucket 3 1; mkBucket 7 5])) None))
      1000 = Ok out /\
    length out = 4%nat.
Proof.
  split; [reflexivity|].
  destruct (AggregateProofs.histogram_emits_buckets_count_sum Z (fun z => z)
              (fun _ => "g") "lat"
              (mkMetric [("job", "node")] None None None None
                 (Some (mkHistogram 7 30 [mkBucket 3 1; mkBucket 7 5])) None)
              (mkHistogram 7 30 [mkBucket 3 1; mkBucket 7 5]) 1000 eq_refl)
    as (out & E & L & _).
  exists out. split; [exact E | exact L].
Defined.

(** C7 at a gauge family with one stamped and one unstamped sample. *)
Lemma Aggregate_timestamps_witness :
  exists out,
    Aggregate Z (fun z => z) (fun _ => "g") 1000
      [Some (mkMetricFamily "up" "help" "GAUGE"
               [Some (mkMetric [("job", "a")] (Some 1) None None None None None);
                Some (mkMetric [] (Some 2) None None None None (Some 5))])]
      = Ok out /\
    map (MTimestamp Z) out = [1000; 5] /\
    exists fbs : list (MetricFamily Z * list (Metric Z * list (MetricWithValue Z))),
      [Some (mkMetricFamily "up" "help" "GAUGE"
               [Some (mkMetric [("job", "a")] (Some 1) None None None None None);
                Some (mkMetric [] (Some 2) None None None None (Some 5))])]
        = map (fun fb => Some (fst fb)) fbs /\
      out = concat (map (fun fb => concat (map snd (snd fb))) fbs) /\
      Forall (fun fb =>
        Metric_ (fst fb) = map (fun b => Some (fst b)) (snd fb) /\
        Forall (fun b =>
          processMetric Z (fun z => z) (fun _ => "g") (Name (fst fb)) (Type_ (fst fb))
            (Some (fst b)) 1000 = Ok (snd b) /\
          Forall (fun r => MTimestamp Z r =
                           match TimestampMs (fst b) with Some t => t | None => 1000 end)
            (snd b)) (snd fb)) fbs.
Proof.
  match goal with
  | |- exists out, Aggregate Z ?g ?f ?t ?fs = Ok out /\ _ =>
      assert (E : Aggregate Z g f t fs =
                  Ok (match Aggregate Z g f t fs with Ok o => o | Err _ => [] end))
        by (vm_compute; reflexivity);
      eexists; split; [exact E|];
      split; [vm_compute; reflexivity|];
      exact (AggregateProofs.Aggregate_timestamps Z g f t fs _ E)
  end.
Defined.

(** C6 at a fresh client: the first call fetches, a call ten seconds
    later is served from the cache. *)
Lemma GetAuthToken_cached_within_lifetime_witness :
  Metadata.GetAuthToken Metadata.NewClient 0 0 0
    (Metadata.FetchReply 200 (Some (Metadata.mkTokenResponse "tok" "https://api")))
    = (Ok "tok",
       Metadata.mkClient "tok" "https://api" (0 + Metadata.TokenCacheLifetime)
         Metadata.TokenCacheLifetime, true) /\
  Metadata.GetAuthToken
    (Metadata.mkClient "tok" "https://api" (0 + Metadata.TokenCacheLifetime)
       Metadata.TokenCacheLifetime)
    10000000000 10000000000 10000000000 Metadata.FetchTransportErr
    = (Ok "tok",
       Metadata.mkClient "tok" "https://api" (0 + Metadata.TokenCacheLifetime)
         Metadata.TokenCacheLifetime, false).
Proof.
  match goal with
  | |- Metadata.GetAuthToken ?c0 ?t ?t ?t ?r1 = (Ok ?tok, ?c1, true) /\
       Metadata.GetAuthToken _ ?t2 ?t2 ?t2 ?r2 = _ =>
      assert (H1 : Metadata.GetAuthToken c0 t t t r1 = (Ok tok, c1, true))
        by reflexivity;
      split; [exact H1|];
      refine (proj1 (MetadataProofs.GetAuthToken_cached_within_lifetime
                       c0 c1 t t t t2 t2 t2 r1 r2 tok H1 _ _ _));
      [ lia | lia | vm_compute; reflexivity ]
  end.
Defined.

Local Close Scope Z_scope.

Import Decorator DecoratorProofs.

(** C5 at a heap holding one family with one sample carrying one label,
    the static labels being ranged over in reverse key order. *)
Lemma Decorate_new_families_witness :
  wf (mkHeap (<[2 := OFamily "f" "" "GAUGE" [Some 1]]>
               (<[1 := OMetric [Some 0] tt None]>
                 (<[0 := OLabel "cpu" "0"]> ∅))) 3) /\
  exists out h',
    Decorate "vm-1" (<["env" := "prod"]> (<["az" := "b"]> ∅))
      (fun m _ => rev (map_to_list m)) (map Some [2%nat])
      (mkHeap (<[2 := OFamily "f" "" "GAUGE" [Some 1]]>
                (<[1 := OMetric [Some 0] tt None]>
                  (<[0 := OLabel "cpu" "0"]> ∅))) 3) = Normal (Ok (out, h')) /\
    length out = 1%nat.
Proof.
  assert (Hwf : wf (mkHeap (<[2 := OFamily "f" "" "GAUGE" [Some 1]]>
                     (<[1 := OMetric [Some 0] tt None]>
                       (<[0 := @OLabel unit "cpu" "0"]> ∅))) 3)).
  { intros l [o Ho]. cbn [next]. destruct l as [|[|[|l]]]; [lia|lia|lia|].
    cbn [cells] in Ho.
    rewrite !lookup_insert_ne in Ho by lia.
    rewrite lookup_empty in Ho. discriminate. }
  split; [exact Hwf|].
  destruct (proj1 (Decorate_new_families "vm-1" (<["env" := "prod"]> (<["az" := "b"]> ∅))
                     (fun m _ => rev (map_to_list m))
                     (fun _ => Permutation_sym (Permutation_rev _)) _ Hwf) [2%nat])
    as (out & h' & E & _ & L & _).
  - constructor; [|constructor].
    exists "f", "", "GAUGE", [Some 1]. split; [reflexivity|].
    constructor; [|constructor].
    exists 1. split; [reflexivity|].
    exists [Some 0], tt, None. split; [reflexivity|].
    constructor; [|constructor].
    exists 0, "cpu", "0". split; reflexivity.
  - exists out, h'. split; [exact E | exact L].
Defined.

End Witnesses.

(* ===================================================================== *)
(** * Witnesses for the theorems about the rest of the agent             *)
(* ===================================================================== *)

Module WitnessesMore.

(** parseLabels at two labels, the second value holding an '='. *)
Lemma parseLabels_roundtrip_witness :
  Forall (fun '(k, v) => k <> "" /\ ConfigMoreProofs.no_char ","%char k /\
            ConfigMoreProofs.no_char "="%char k /\ ConfigMoreProofs.edge_trimmed k /\
            ConfigMoreProofs.no_char ","%char v /\ ConfigMoreProofs.edge_trimmed v)
    [("env", "prod"); ("team", "a=b")] /\
  ConfigMore.parseLabels
    (Join (map (fun '(k, v) => k ++ "=" ++ v) [("env", "prod"); ("team", "a=b")]) ",")
  = list_to_map (rev [("env", "prod"); ("team", "a=b")]).
Proof.
  assert (H : Forall (fun '(k, v) => k <> "" /\ ConfigMoreProofs.no_char ","%char k /\
            ConfigMoreProofs.no_char "="%char k /\ ConfigMoreProofs.edge_trimmed k /\
            ConfigMoreProofs.no_char ","%char v /\ ConfigMoreProofs.edge_trimmed v)
            [("env", "prod"); ("team", "a=b")]).
  { assert (Ed : forall s,
            Forall ConfigMoreProofs.edge_byte
              (option_list (hd_error (String.list_ascii_of_string s)) ++
               option_list (hd_error (rev (String.list_ascii_of_string s)))) ->
            ConfigMoreProofs.edge_trimmed s).
    { intros s H c [Hc|Hc]; rewrite List.Forall_forall in H; apply H; rewrite Hc;
        apply in_or_app; [left|right]; cbn; left; reflexivity. }
    repeat apply List.Forall_cons; try apply List.Forall_nil;
      refine (conj _ (conj _ (conj _ (conj _ (conj _ _))))); try discriminate;
      try (unfold ConfigMoreProofs.no_char; cbn; intuition discriminate);
      apply Ed; cbn; repeat apply List.Forall_cons; try apply List.Forall_nil;
      split; vm_compute; reflexivity. }
  split; [exact H|]. exact (ConfigMoreProofs.parseLabels_roundtrip _ H).
Defined.

(** Load with SC_VM_ID and SC_LABELS set and no config file. *)
Lemma Load_sources_witness :
  exists cfg,
    ConfigMore.Load (fun _ => None)
      (fun n => if String.eqb n "SC_VM_ID" then "vm-7"
                else if String.eqb n "SC_LABELS" then "env=prod" else "")
      (fun _ c => Ok c) (fun r => r)
      (Identity.mkHost (fun _ => Identity.ProbeFailed) None None None) = Ok cfg /\
    Config.VMID (ConfigMore.Base cfg) = "vm-7" /\
    ConfigMore.Labels cfg = ConfigMore.parseLabels "env=prod".
Proof.
  match goal with
  | |- exists cfg, ConfigMore.Load ?pd ?en ?un ?ul ?h = Ok cfg /\ _ =>
      assert (E : ConfigMore.Load pd en un ul h =
                  Ok (match ConfigMore.Load pd en un ul h with
                      | Ok c => c | Err _ => ConfigMore.DefaultConfig h end))
        by (vm_compute; reflexivity);
      eexists; split; [exact E|];
      destruct (ConfigMoreProofs.Load_sources pd en un ul h _ E) as (H1 & _ & _);
      destruct (H1 eq_refl) as [Hv Hl];
      rewrite Hv, Hl; split; reflexivity
  end.
Defined.

(** A mixed-case log level that validate accepts. *)
Lemma initLogger_ignores_mixed_case_witness :
  Config.ToLower (fun r => r) (Config.LogLevel
    (Config.mkConfig 1 1 "vm-1"
       (Config.mkCollectorConfig true true true true true true true true true true
          true true true true true true true true true true true)
       "DEBUG" 3 1)) <>
  Config.LogLevel
    (Config.mkConfig 1 1 "vm-1"
       (Config.mkCollectorConfig true true true true true true true true true true
          true true true true true true true true true true true)
       "DEBUG" 3 1) /\
  AgentMain.initLogger_level "DEBUG" = AgentMain.InfoLevel /\
  Config.validate (fun r => r)
    (Config.mkConfig 1 1 "vm-1"
       (Config.mkCollectorConfig true true true true true true true true true true
          true true true true true true true true true true true)
       "DEBUG" 3 1) = None.
Proof.
  match goal with
  | |- Config.ToLower ?ul (Config.LogLevel ?c) <> _ /\ _ =>
      assert (Hl : Config.ToLower ul (Config.LogLevel c) <> Config.LogLevel c)
        by (intros H; vm_compute in H; discriminate H);
      split; [exact Hl|];
      destruct (AgentMainProofs.initLogger_ignores_mixed_case ul c Hl) as [Hi Hv];
      split; [exact Hi|];
      rewrite Hv by (vm_compute; left; reflexivity);
      vm_compute; reflexivity
  end.
Defined.

(** The heartbeat meeting a 503 once, against a client allowing 3 retries. *)
Lemma SendHeartbeat_single_attempt_witness :
  (exists req,
     TsRequests.SendHeartbeat unit
       (TsClient.mkEnv (fun _ => TsClient.WireReply 503 "" 0) (fun _ => false) (fun _ => None))
       (Some "https://api") (Ok tt) "tok" =
     Ok (req, Ok (TsClient.mkResponse 503 0)) /\
     TsRequests.req_headers req !! "Content-Encoding" = None) /\
  (exists tr,
     snd (TsClient.sendWithRetry (TsClient.mkClient 1 3 5)
            (TsClient.mkEnv (fun _ => TsClient.WireReply 503 "" 0) (fun _ => false)
               (fun _ => None)))
     = (0%nat, 0%Z) :: (1%nat, 5%Z) :: tr).
Proof.
  destruct (TsRequestsProofs.SendHeartbeat_single_attempt unit (TsClient.mkClient 1 3 5)
              (TsClient.mkEnv (fun _ => TsClient.WireReply 503 "" 0) (fun _ => false)
                 (fun _ => None))
              "https://api" tt "tok" 503 "" 0)
    as [(req & E & _ & _ & Hc) (tr & T)];
    [discriminate|reflexivity|reflexivity|cbn; lia|reflexivity|reflexivity|].
  split; [exists req; split; [exact E|exact Hc]|].
  exists tr. exact T.
Defined.

(** Diagnostics marshalled to a unit payload, posted to a known URL. *)
Lemma SendDiagnostics_request_witness :
  exists req,
    TsRequests.SendDiagnostics unit unit (fun _ => Ok tt) (fun b => b)
      (TsClient.mkClient 1 3 5)
      (TsClient.mkEnv (fun _ => TsClient.WireReply 200 "" 0) (fun _ => false) (fun _ => None))
      (Some "https://api") tt "tok"
    = TsRequests.Posted req
        (TsClient.sendWithRetry (TsClient.mkClient 1 3 5)
           (TsClient.mkEnv (fun _ => TsClient.WireReply 200 "" 0) (fun _ => false)
              (fun _ => None))) /\
    TsRequests.req_endpoint req = "https://api" ++ "/resource-manager/api/v1/metrics/ingest".
Proof.
  destruct (proj2 (TsRequestsProofs.SendDiagnostics_request unit unit (fun _ => Ok tt)
                     (fun b => b) (TsClient.mkClient 1 3 5)
                     (TsClient.mkEnv (fun _ => TsClient.WireReply 200 "" 0) (fun _ => false)
                        (fun _ => None))
                     tt tt "tok" eq_refl) "https://api" ltac:(discriminate))
    as (req & E & Hep & _).
  exists req. split; [exact E|exact Hep].
Defined.

(** GetAuthTokenWithRetry called with maxRetries = -1. *)
Lemma GetAuthTokenWithRetry_negative_witness :
  (-1 < 0)%Z /\
  MetadataMore.GetAuthTokenWithRetry (fun _ => (0, 0, 0)%Z)
    (fun _ => Metadata.FetchTransportErr) (fun _ => false) "context canceled" (-1)
    Metadata.NewClient =
  (Err "failed to fetch auth token after 0 attempts: %!w(<nil>)", Metadata.NewClient, 0%nat).
Proof.
  split; [lia|].
  rewrite (MetadataMoreProofs.GetAuthTokenWithRetry_negative (fun _ => (0, 0, 0)%Z)
             (fun _ => Metadata.FetchTransportErr) (fun _ => false) "context canceled" (-1)
             Metadata.NewClient ltac:(lia)).
  reflexivity.
Defined.

(** GetAuthTokenWithRetry with two retries against a failing endpoint. *)
Lemma GetAuthTokenWithRetry_all_fail_witness :
  MetadataMore.GetAuthTokenWithRetry (fun _ => (0, 0, 0)%Z)
    (fun _ => Metadata.FetchReply 500 None) (fun _ => false) "context canceled" 2
    Metadata.NewClient =
  (Err "failed to fetch auth token after 3 attempts: metadata service returned error status",
   Metadata.NewClient, 3%nat).
Proof.
  destruct (MetadataMoreProofs.GetAuthTokenWithRetry_all_fail (fun _ => (0, 0, 0)%Z)
              (fun _ => Metadata.FetchReply 500 None) (fun _ => false) "context canceled" 2
              Metadata.NewClient)
    as (e & He & E).
  - lia.
  - reflexivity.
  - intros k. split; [reflexivity|]. eexists. reflexivity.
  - rewrite E. cbn in He. injection He as <-. reflexivity.
Defined.

(** A token without a CloudAPI URL, then a URL lookup a minute later. *)
Lemma GetCloudAPIURL_empty_url_sticks_witness :
  MetadataMore.GetCloudAPIURL
    (Metadata.mkClient "tok" "" (0 + Metadata.TokenCacheLifetime) Metadata.TokenCacheLifetime)
    60000000000 60000000000 60000000000 60000000000
    (Metadata.FetchReply 200 (Some (Metadata.mkTokenResponse "tok2" "https://api")))
  = (Err "CloudAPI URL not available in metadata response",
     Metadata.mkClient "tok" "" (0 + Metadata.TokenCacheLifetime) Metadata.TokenCacheLifetime,
     false).
Proof.
  pose proof (MetadataMoreProofs.GetCloudAPIURL_empty_url_sticks Metadata.NewClient 0 0 0
                (Metadata.FetchReply 200 (Some (Metadata.mkTokenResponse "tok" "")))
                (Metadata.mkTokenResponse "tok" "")
                60000000000 60000000000 60000000000 60000000000
                (Metadata.FetchReply 200 (Some (Metadata.mkTokenResponse "tok2" "https://api")))
                eq_refl eq_refl eq_refl eq_refl ltac:(vm_compute; reflexivity)) as T.
  exact (proj2 (proj2 T)).
Defined.

(** A run collecting nothing after a failed write. *)
Lemma Process_empty_collection_keeps_error_witness :
  Pipeline.Process unit unit (Ok []) (fun l => Ok l) (fun _ => Ok []) (fun _ _ => None)
    (fun _ => false) "context canceled" (Pipeline.mkProcessor 0 0 "write failed: boom")
    "tok" 5
  = (None, Pipeline.mkProcessor 0 0 "write failed: boom", None) /\
  Pipeline.diagnostics_status "write failed: boom" = "error".
Proof.
  exact (PipelineProofs.Process_empty_collection_keeps_error unit unit (Ok [])
           (fun l => Ok l) (fun _ => Ok []) (fun _ _ => None) (fun _ => false)
           "context canceled" (Pipeline.mkProcessor 0 0 "write failed: boom") "tok" 5
           ltac:(discriminate) eq_refl eq_refl ltac:(discriminate)).
Defined.

End WitnessesMore.
